(** * report-downloader: job lifecycle of the report server and of the client hook

    Shallow embedding of
    - [server/src/index.ts]: the in-memory job store [reports], the three
      Express handlers and the two kinds of timer callbacks;
    - [hooks/useReportGeneration]: the initialiser of the [jobs] state, the
      handlers of a status stream, the effect that opens the streams and
      the handlers that remove jobs;
    - [components/DownloadStatus]: what the panel shows of the jobs.

    Strings are sequences of code units below 256 (Rocq's [ascii] read as
    Latin-1), timestamps and delays are integers in milliseconds.  The
    results of [uuidv4()] and [Date.now()] are inputs of the events.  An
    exception that leaves a handler is part of what the handler does. *)

From Stdlib Require Import ZArith Ascii String List.
From stdpp Require Import base gmap strings list fin_maps.

Local Open Scope string_scope.
Local Open Scope Z_scope.
Local Open Scope list_scope.

(** ** JavaScript primitives used by the code *)
Module Js.

(** [String.prototype.toLowerCase] on one code unit below 256: [A-Z] and the
    Latin-1 capitals U+00C0..U+00DE (except the multiplication sign U+00D7)
    move up by 32. *)
Definition lower_char (c : ascii) : ascii :=
  let n := N_of_ascii c in
  if ((65 <=? n) && (n <=? 90))%N then ascii_of_N (n + 32)
  else if ((192 <=? n) && (n <=? 222) && negb (n =? 215))%N then ascii_of_N (n + 32)
  else c.

Fixpoint toLowerCase (s : string) : string :=
  match s with
  | EmptyString => EmptyString
  | String c r => String (lower_char c) (toLowerCase r)
  end.

(** [String.prototype.includes]: [sub] occurs in [s] at some offset. *)
Fixpoint includes (sub s : string) : bool :=
  String.prefix sub s ||
  match s with
  | EmptyString => false
  | String _ r => includes sub r
  end.

(** [String.prototype.startsWith]. *)
Definition startsWith (pre s : string) : bool := String.prefix pre s.

(** The class [\s] of a JavaScript regular expression, below 256:
    TAB, LF, VT, FF, CR, SPACE and NO-BREAK SPACE. *)
Definition is_space (c : ascii) : bool :=
  let n := N_of_ascii c in
  (((9 <=? n) && (n <=? 13)) || (n =? 32) || (n =? 160))%N.

(** [s.replace(/\s+/g, '-')]: every maximal run of white space becomes one
    dash.  [in_run] tells that the previous code unit was white space. *)
Fixpoint replace_spaces_from (in_run : bool) (s : string) : string :=
  match s with
  | EmptyString => EmptyString
  | String c r =>
      if is_space c then
        if in_run then replace_spaces_from true r
        else String "-" (replace_spaces_from true r)
      else String c (replace_spaces_from false r)
  end.

Definition replace_spaces (s : string) : string := replace_spaces_from false s.

(** Truthiness of a string: [!name] holds for the empty string. *)
Definition truthy (s : string) : bool :=
  match s with EmptyString => false | _ => true end.

(** A JSON value, as [req.body.name] is one when it is present: a string,
    [null], a boolean, a number (here an integer; the other numbers behave
    as the non-zero ones do), or an array or an object, kept as its JSON
    text. *)
Inductive value : Type :=
| JString (s : string)
| JNull
| JBool (b : bool)
| JNumber (n : Z)
| JCompound (json : string).

(** Truthiness of a value: [!name] holds for the empty string, [null],
    [false] and zero. *)
Definition truthy_value (v : value) : bool :=
  match v with
  | JString s => truthy s
  | JNull => false
  | JBool b => b
  | JNumber n => negb (n =? 0)%Z
  | JCompound _ => true
  end.

(** [Array.prototype.every] on the code units of a string. *)
Fixpoint every (p : ascii -> bool) (s : string) : bool :=
  match s with
  | EmptyString => true
  | String c r => p c && every p r
  end.

(** The code units Node accepts in the value of a header: TAB, the
    printable ASCII ones and, of the code units below 256 that strings have
    here, those from 128 on.  [res.setHeader] throws [ERR_INVALID_CHAR] on
    any other. *)
Definition valid_header_char (c : ascii) : bool :=
  let n := N_of_ascii c in
  ((n =? 9) || ((32 <=? n) && (n <=? 126)) || (128 <=? n))%N.

Definition valid_header_value (v : string) : bool := every valid_header_char v.

(** The names every plain object inherits from [Object.prototype]: reading
    one of them on an object that has no such property of its own gives a
    function or, for [__proto__], the prototype, all of them truthy. *)
Definition Object_prototype : list string :=
  ["constructor"; "__defineGetter__"; "__defineSetter__"; "hasOwnProperty";
   "__lookupGetter__"; "__lookupSetter__"; "isPrototypeOf";
   "propertyIsEnumerable"; "toString"; "valueOf"; "__proto__";
   "toLocaleString"].

Definition inherited (key : string) : bool :=
  existsb (String.eqb key) Object_prototype.

End Js.

(** A string is used as a value where one is expected, also under [Some]. *)
Coercion Js.JString : string >-> Js.value.
#[global] Arguments Some {A} & a.

#[global] Instance value_eq_dec : EqDecision Js.value.
Proof. solve_decision. Defined.

(** ** A small exception monad for [try { ... } catch { ... }] *)
Module Exc.

Inductive result (A : Type) : Type :=
| Ok (a : A)
| Throw (e : string).
Arguments Ok {A} a.
Arguments Throw {A} e.

Definition ret {A} (a : A) : result A := Ok a.

Definition bind {A B} (m : result A) (k : A -> result B) : result B :=
  match m with
  | Ok a => k a
  | Throw e => Throw e
  end.

Definition try_catch {A} (body : result A) (handler : string -> A) : A :=
  match body with
  | Ok a => a
  | Throw e => handler e
  end.

End Exc.

#[global] Instance result_ret : MRet Exc.result := @Exc.ret.
#[global] Instance result_bind : MBind Exc.result :=
  fun A B k m => Exc.bind m k.

(** ** The server: [server/src/index.ts] *)
Module Server.

Inductive Status : Type := pending | completed | failed.

#[global] Instance Status_eq_dec : EqDecision Status.
Proof. solve_decision. Defined.

(** [interface ReportData].  The name is declared a string; it is stored
    as it came in the request. *)
Record ReportData : Type := mkReport {
  status : Status;
  name : Js.value;
  createdAt : Z;
  filePath : option string;
  error : option string
}.

#[global] Instance ReportData_eq_dec : EqDecision ReportData.
Proof. solve_decision. Defined.

Definition is_terminal (s : Status) : bool :=
  match s with pending => false | _ => true end.

(** What a pending timer will run: the arrow function of the generation
    handler with its captured [jobId], [name] and [now], or [checkStatus]
    with its captured response object and [jobId]. *)
Inductive Callback : Type :=
| Complete (jobId : string) (name : string) (now : Z)
| CheckStatus (conn : nat) (jobId : string).

Record Timer : Type := mkTimer {
  delay : Z;
  callback : Callback
}.

(** The process state: the [reports] map and the timers scheduled with
    [setTimeout] that have not fired yet. *)
Record State : Type := mkState {
  reports : gmap string ReportData;
  timers : list Timer
}.

Definition init : State := mkState ∅ [].

(** One frame of the event stream: the argument of [JSON.stringify]. *)
Inductive Frame : Type :=
| FrameError (msg : string)
| FrameRecord (r : ReportData).

(** The calls made on a response object, in order, and the exception that
    leaves the handler, if one does. *)
Inductive Action : Type :=
| SetHeader (key value : string)
| SetStatus (code : Z)
| JsonError (msg : string)
| JsonJobId (jobId : string)
| Send (content : string)
| Write (f : Frame)
| End
| Uncaught (error : string).

(** What one turn of the event loop does to the outside: calls on the
    response of the request being served, calls on the response captured by
    a [checkStatus] timer, or nothing. *)
Inductive Output : Type :=
| Reply (acts : list Action)
| Push (conn : nat) (acts : list Action)
| Silent.

Definition expiry_window : Z := 30 * 60 * 1000.

(** The handler throws [error] and no error middleware is installed:
    Express ends the response itself, with the status 500, as none was set,
    and an HTML page in place of the body. *)
Definition uncaught (error : string) : list Action :=
  [Uncaught error; SetStatus 500;
   SetHeader "Content-Type" "text/html; charset=utf-8"].

Definition setTimeout (cb : Callback) (d : Z) (st : State) : State :=
  mkState (reports st) (timers st ++ [mkTimer d cb]).

Definition set_report (jobId : string) (r : ReportData) (st : State) : State :=
  mkState (<[jobId := r]> (reports st)) (timers st).

Definition delete_report (jobId : string) (st : State) : State :=
  mkState (delete jobId (reports st)) (timers st).

(** *** POST /api/generate-report *)

Definition generation_delay (name : string) : Z :=
  if Js.includes "sales" (Js.toLowerCase name) then 8000 else 5000.

(** [name] is [req.body.name]: absent or a JSON value; [uuid] is the value
    of [uuidv4()] and [now] of [Date.now()], read only once the name passed.
    A name that is not a string has no [toLowerCase]: the handler throws when
    it computes the delay, after the record is written and before the timer
    is set and the id returned. *)
Definition generate_report (name : option Js.value) (uuid : string) (now : Z)
    (st : State) : State * Output :=
  match name with
  | None => (st, Reply [SetStatus 400; JsonError "Report name is required"])
  | Some name =>
      if negb (Js.truthy_value name) then
        (st, Reply [SetStatus 400; JsonError "Report name is required"])
      else
        let jobId := uuid in
        let st1 := set_report jobId (mkReport pending name now None None) st in
        match name with
        | Js.JString name =>
            let d := generation_delay name in
            let st2 := setTimeout (Complete jobId name now) d st1 in
            (st2, Reply [JsonJobId jobId])
        | _ => (st1, Reply (uncaught "TypeError"))
        end
  end.

Definition synth_filePath (name jobId : string) : string :=
  "/reports/" +:+ Js.replace_spaces (Js.toLowerCase name) +:+ "-" +:+ jobId +:+ ".csv".

(** The body of the [try] block of the deferred transition. *)
Definition complete_try (jobId name : string) (now : Z) (st : State)
    : Exc.result State :=
  filePath ← mret (synth_filePath name jobId);
  mret (set_report jobId (mkReport completed name now (Some filePath) None) st).

(** The arrow function given to [setTimeout] by the generation handler. *)
Definition complete_callback (jobId name : string) (now : Z) (st : State) : State :=
  Exc.try_catch (complete_try jobId name now st)
    (fun _ => set_report jobId
                (mkReport failed name now None (Some "Failed to generate report")) st).

(** *** GET /api/report-status/:jobId *)

Definition sse_headers : list Action :=
  [SetHeader "Content-Type" "text/event-stream";
   SetHeader "Cache-Control" "no-cache";
   SetHeader "Connection" "keep-alive"].

(** [checkStatus], closed over the response [conn] and [jobId]. *)
Definition checkStatus (conn : nat) (jobId : string) (st : State)
    : State * list Action :=
  match reports st !! jobId with
  | None => (st, [Write (FrameError "Report not found"); End])
  | Some currentReport =>
      if is_terminal (status currentReport) then
        (st, [Write (FrameRecord currentReport); End])
      else
        (setTimeout (CheckStatus conn jobId) 50000 st,
         [Write (FrameRecord currentReport)])
  end.

Definition report_status (conn : nat) (jobId : string) (now : Z) (st : State)
    : State * Output :=
  match reports st !! jobId with
  | None =>
      (st, Push conn (sse_headers ++ [Write (FrameError "Report not found"); End]))
  | Some report =>
      let thirtyMinutesAgo := now - expiry_window in
      if createdAt report <? thirtyMinutesAgo then
        (delete_report jobId st,
         Push conn (sse_headers ++ [Write (FrameError "Report expired"); End]))
      else
        let '(st', acts) := checkStatus conn jobId st in
        (st', Push conn (sse_headers ++ acts))
  end.

(** *** GET /api/download-report/:jobId *)

Definition csv_content (name : string) : string :=
  let csvContent := "id,name,value" +:+ String "010" "" in
  if Js.includes "sales" (Js.toLowerCase name) then
    csvContent +:+ "1,Product A,1000" +:+ String "010" ""
      +:+ "2,Product B,2000" +:+ String "010" "" +:+ "3,Product C,3000"
  else
    csvContent +:+ "1,Item X,50" +:+ String "010" ""
      +:+ "2,Item Y,75" +:+ String "010" "" +:+ "3,Item Z,100".

(** The name of a stored record that is not a string has no [toLowerCase]:
    the handler throws when it builds the CSV.  A file name with a code unit
    that no header value may hold makes the second [res.setHeader] throw,
    after the first and before [res.send]. *)
Definition download_report (jobId : string) (now : Z) (st : State)
    : State * Output :=
  match reports st !! jobId with
  | None => (st, Reply [SetStatus 404; JsonError "Report not found"])
  | Some report =>
      if negb (bool_decide (status report = completed))
         || negb (match filePath report with
                  | Some p => Js.truthy p
                  | None => false
                  end)
      then (st, Reply [SetStatus 400; JsonError "Report is not ready for download"])
      else
        let thirtyMinutesAgo := now - expiry_window in
        if createdAt report <? thirtyMinutesAgo then
          (delete_report jobId st,
           Reply [SetStatus 400; JsonError "Report has expired"])
        else
          match name report with
          | Js.JString name =>
              let csvContent := csv_content name in
              let disposition :=
                "attachment; filename="
                  +:+ Js.replace_spaces (Js.toLowerCase name) +:+ ".csv" in
              if Js.valid_header_value disposition then
                (st,
                 Reply [SetHeader "Content-Type" "text/csv";
                        SetHeader "Content-Disposition" disposition;
                        Send csvContent])
              else
                (st,
                 Reply (SetHeader "Content-Type" "text/csv"
                          :: uncaught "ERR_INVALID_CHAR"))
          | _ => (st, Reply (uncaught "TypeError"))
          end
  end.

(** *** The event loop *)

(** One turn serves a request or runs the callback of a timer.  Which
    pending timer fires, and when, is the choice of the run: the delays are
    kept in the queue but no clock orders the turns, as [Date.now()] and the
    timers of the runtime need not agree. *)
Inductive Event : Type :=
| GenerateReq (name : option Js.value) (uuid : string) (now : Z)
| StatusReq (conn : nat) (jobId : string) (now : Z)
| DownloadReq (jobId : string) (now : Z)
| TimerFire (i : nat).

Definition run_callback (cb : Callback) (st : State) : State * Output :=
  match cb with
  | Complete jobId name now => (complete_callback jobId name now st, Silent)
  | CheckStatus conn jobId =>
      let '(st', acts) := checkStatus conn jobId st in (st', Push conn acts)
  end.

(** The [i]-th pending timer fires: it leaves the queue and its callback
    runs.  Nothing happens when there is no such timer. *)
Definition fire (i : nat) (st : State) : State * Output :=
  match timers st !! i with
  | None => (st, Silent)
  | Some t => run_callback (callback t) (mkState (reports st) (delete i (timers st)))
  end.

Definition step (st : State) (e : Event) : State * Output :=
  match e with
  | GenerateReq name uuid now => generate_report name uuid now st
  | StatusReq conn jobId now => report_status conn jobId now st
  | DownloadReq jobId now => download_report jobId now st
  | TimerFire i => fire i st
  end.

Fixpoint run (st : State) (es : list Event) : State :=
  match es with
  | [] => st
  | e :: es => run (fst (step st e)) es
  end.

Fixpoint outputs (st : State) (es : list Event) : list Output :=
  match es with
  | [] => []
  | e :: es => snd (step st e) :: outputs (fst (step st e)) es
  end.

End Server.

(** ** The client hook: [useReportGeneration] *)
Module Client.

Inductive Status : Type := pending | completed | failed.

#[global] Instance Status_eq_dec : EqDecision Status.
Proof. solve_decision. Defined.

(** [interface ReportStatus]. *)
Record ReportStatus : Type := mkStatus {
  status : Status;
  error : option string;
  timestamp : option Z
}.

(** [interface ReportJob]; its field [status] is [job_status] here, as the
    name is taken by the field of [ReportStatus]. *)
Record ReportJob : Type := mkJob {
  id : string;
  job_status : ReportStatus;
  name : string;
  createdAt : Z;
  downloaded : option bool
}.

#[global] Instance ReportStatus_eq_dec : EqDecision ReportStatus.
Proof. solve_decision. Defined.

#[global] Instance ReportJob_eq_dec : EqDecision ReportJob.
Proof. solve_decision. Defined.

(** [storageConfig], both fields optional. *)
Record StorageConfig : Type := mkStorageConfig {
  key : option string;
  expiryTime : option Z
}.

Definition DEFAULT_key : string := "report_jobs".
Definition DEFAULT_expiryTime : Z := 30 * 60 * 1000.

Definition DEFAULT_STORAGE_CONFIG : StorageConfig :=
  mkStorageConfig (Some DEFAULT_key) (Some DEFAULT_expiryTime).

(** [apiConfig]. *)
Record ApiConfig : Type := mkApiConfig {
  baseUrl : string;
  generateEndpoint : string;
  statusEndpoint : string -> string;
  downloadEndpoint : string -> string
}.

(** The successive values of [Date.now()] during one synchronous run: the
    [k]-th call reads [clock k]. *)
Definition Clock : Type := nat -> Z.

(** [options.storageConfig = DEFAULT_STORAGE_CONFIG], then the two [??]. *)
Definition storageKey_of (storageConfig : option StorageConfig) : string :=
  default DEFAULT_key (key (default DEFAULT_STORAGE_CONFIG storageConfig)).

Definition expiryTime_of (storageConfig : option StorageConfig) : Z :=
  default DEFAULT_expiryTime (expiryTime (default DEFAULT_STORAGE_CONFIG storageConfig)).

(** The callback of [parsedJobs.filter]; [Date.now()] is read only when the
    left operand of [&&] holds. *)
Definition keep_on_load (expiry : Z) (now : Z) (job : ReportJob) : bool :=
  negb (bool_decide (status (job_status job) = completed))
  && (now - createdAt job <? expiry).

Fixpoint filter_on_load (expiry : Z) (clock : Clock) (k : nat)
    (parsedJobs : list ReportJob) : list ReportJob :=
  match parsedJobs with
  | [] => []
  | job :: rest =>
      if negb (bool_decide (status (job_status job) = completed)) then
        if clock k - createdAt job <? expiry
        then job :: filter_on_load expiry clock (S k) rest
        else filter_on_load expiry clock (S k) rest
      else filter_on_load expiry clock k rest
  end.

(** The initialiser of the [jobs] state.  [localStorage] maps a key to the
    job list that [JSON.stringify] wrote there and [JSON.parse] reads back;
    a key that was never written gives [null]. *)
Definition initial_jobs (localStorage : gmap string (list ReportJob))
    (storageConfig : option StorageConfig) (clock : Clock) : list ReportJob :=
  match localStorage !! storageKey_of storageConfig with
  | Some parsedJobs =>
      filter_on_load (expiryTime_of storageConfig) clock 0 parsedJobs
  | None => []
  end.

(** What a stream handler does besides updating [jobs]. *)
Inductive Effect : Type :=
| Navigate (url : string)
| JobCompleted (job : ReportJob)
| JobFailed (job : ReportJob)
| CloseSource (jobId : string).

(** The two revisions of the hook differ in the target of the navigation:
    [`${apiConfig.baseUrl}${apiConfig.downloadEndpoint(job.id)}`] or
    [apiConfig.downloadEndpoint(job.id)]. *)
Inductive Revision : Type := WithBaseUrl | WithoutBaseUrl.

Definition download_url (rev : Revision) (apiConfig : ApiConfig) (jobId : string)
    : string :=
  match rev with
  | WithBaseUrl => baseUrl apiConfig +:+ downloadEndpoint apiConfig jobId
  | WithoutBaseUrl => downloadEndpoint apiConfig jobId
  end.

(** [!j.downloaded]: the flag is absent or false. *)
Definition not_downloaded (j : ReportJob) : bool :=
  match downloaded j with
  | Some true => false
  | _ => true
  end.

(** The branch [j.id === job.id] of the callback of [prev.map], for the
    parsed frame [data] and the reading [now] of [Date.now()]. *)
Definition update_job (rev : Revision) (apiConfig : ApiConfig) (jobId : string)
    (data : ReportStatus) (now : Z) (j : ReportJob) : ReportJob * list Effect :=
  let updatedJob :=
    mkJob (id j) (mkStatus (status data) (error data) (Some now))
          (name j) (createdAt j) (downloaded j) in
  if bool_decide (status data = completed) && not_downloaded j then
    let finalJob :=
      mkJob (id updatedJob) (job_status updatedJob) (name updatedJob)
            (createdAt updatedJob) (Some true) in
    (finalJob, [Navigate (download_url rev apiConfig jobId); JobCompleted finalJob])
  else if bool_decide (status data = failed) then
    (updatedJob, [JobFailed updatedJob])
  else (updatedJob, []).

(** [prev.map(j => ...)] with its effects, in list order. *)
Fixpoint map_jobs (rev : Revision) (apiConfig : ApiConfig) (jobId : string)
    (data : ReportStatus) (clock : Clock) (k : nat) (prev : list ReportJob)
    : list ReportJob * list Effect :=
  match prev with
  | [] => ([], [])
  | j :: rest =>
      if bool_decide (id j = jobId) then
        let '(j', eff) := update_job rev apiConfig jobId data (clock k) j in
        let '(rest', effs) := map_jobs rev apiConfig jobId data clock (S k) rest in
        (j' :: rest', eff ++ effs)
      else
        let '(rest', effs) := map_jobs rev apiConfig jobId data clock k rest in
        (j :: rest', effs)
  end.

(** [eventSource.onmessage] of the stream opened for the job [jobId]: the
    updater given to [setJobs] runs once on the current list, then the
    source is closed on a terminal status. *)
Definition onmessage (rev : Revision) (apiConfig : ApiConfig) (jobId : string)
    (data : ReportStatus) (clock : Clock) (prev : list ReportJob)
    : list ReportJob * list Effect :=
  let '(jobs, effs) := map_jobs rev apiConfig jobId data clock 0 prev in
  (jobs,
   effs ++ (if bool_decide (status data = completed)
               || bool_decide (status data = failed)
            then [CloseSource jobId] else [])).

(** A frame delivered to the handler of the stream of [msg_job]. *)
Record Message : Type := mkMessage {
  msg_job : string;
  msg_data : ReportStatus;
  msg_clock : Clock
}.

(** The handlers run one after the other; the effects are kept per
    message, tagged with the job whose stream delivered it. *)
Fixpoint deliver (rev : Revision) (apiConfig : ApiConfig) (msgs : list Message)
    (jobs : list ReportJob) : list ReportJob * list (string * Effect) :=
  match msgs with
  | [] => (jobs, [])
  | m :: rest =>
      let '(jobs1, effs) :=
        onmessage rev apiConfig (msg_job m) (msg_data m) (msg_clock m) jobs in
      let '(jobs2, later) := deliver rev apiConfig rest jobs1 in
      (jobs2, map (pair (msg_job m)) effs ++ later)
  end.

Definition is_navigation (e : Effect) : bool :=
  match e with Navigate _ => true | _ => false end.

(** How many times the handlers of the stream of [jobId] navigated. *)
Definition navigations (jobId : string) (log : list (string * Effect)) : nat :=
  length (filter (fun p => fst p = jobId ∧ is_navigation (snd p) = true) log).

(** The jobs of [jobId] that are still to be downloaded. *)
Definition awaiting (jobId : string) (jobs : list ReportJob) : nat :=
  length (filter (fun j => id j = jobId ∧ not_downloaded j = true) jobs).

End Client.

(** ** Reading a transcript of response calls *)
Module Http.
Import Server.

Definition acts_of (o : Output) : list Action :=
  match o with
  | Reply acts => acts
  | Push _ acts => acts
  | Silent => []
  end.

(** The HTTP status of the response: the last one set, else 200. *)
Definition status_code (acts : list Action) : Z :=
  default 200
    (last (omap (fun a => match a with SetStatus c => Some c | _ => None end) acts)).

Definition json_error (acts : list Action) : option string :=
  head (omap (fun a => match a with JsonError m => Some m | _ => None end) acts).

Definition json_jobId (acts : list Action) : option string :=
  head (omap (fun a => match a with JsonJobId j => Some j | _ => None end) acts).

Definition sent (acts : list Action) : option string :=
  head (omap (fun a => match a with Send c => Some c | _ => None end) acts).

(** The exception that left the handler. *)
Definition thrown (acts : list Action) : option string :=
  head (omap (fun a => match a with Uncaught e => Some e | _ => None end) acts).

Definition header (key : string) (acts : list Action) : option string :=
  last (omap (fun a => match a with
                       | SetHeader k v => if String.eqb k key then Some v else None
                       | _ => None
                       end) acts).

(** The frames written to an event stream, in order. *)
Definition frames (acts : list Action) : list Frame :=
  omap (fun a => match a with Write f => Some f | _ => None end) acts.

Definition ended (acts : list Action) : bool :=
  existsb (fun a => match a with End => true | _ => false end) acts.

End Http.

(** ** Properties of the server handlers *)
Module ServerProps.
Import Server Http.

(** *** Predicates on records and on single answers *)

(** The job can be downloaded: [completed] with a non-empty [filePath]. *)
Definition ready (r : ReportData) : bool :=
  bool_decide (status r = completed)
  && match filePath r with Some p => Js.truthy p | None => false end.

(** The job is past the expiry window at [now]. *)
Definition expired (r : ReportData) (now : Z) : Prop :=
  createdAt r < now - expiry_window.

#[global] Instance expired_dec r now : Decision (expired r now).
Proof. unfold expired. apply _. Defined.

(** The value of the [Content-Disposition] header of a download. *)
Definition disposition (name : string) : string :=
  "attachment; filename="
    +:+ Js.replace_spaces (Js.toLowerCase name) +:+ ".csv".

(** The file of the job can be sent: the name is a string and the header
    made from it is one Node accepts. *)
Definition sendable (r : ReportData) : bool :=
  match name r with
  | Js.JString nm => Js.valid_header_value (disposition nm)
  | _ => false
  end.

(** What the download of a ready job within the window does to the
    response. *)
Definition file_reply (name : Js.value) : list Action :=
  match name with
  | Js.JString nm =>
      if Js.valid_header_value (disposition nm) then
        [SetHeader "Content-Type" "text/csv";
         SetHeader "Content-Disposition" (disposition nm);
         Send (csv_content nm)]
      else SetHeader "Content-Type" "text/csv" :: uncaught "ERR_INVALID_CHAR"
  | _ => uncaught "TypeError"
  end.

(** A name with the control character U+0007 in it. *)
Definition bell_name : string := "Q" +:+ String "007" "".

(** The record the deferred transition writes for a job. *)
Definition completed_record (jobId name : string) (now : Z) : ReportData :=
  mkReport completed name now (Some (synth_filePath name jobId)) None.

(** A status request answers a known job with its record first, an unknown
    one with an error and the end of the stream. *)
Definition stream_opens_with_record (conn : nat) (jobId : string) (now : Z)
    (st : State) : Prop :=
  let acts := acts_of (snd (report_status conn jobId now st)) in
  match reports st !! jobId with
  | None => (exists msg, frames acts = [FrameError msg]) /\ ended acts = true
  | Some r => head (frames acts) = Some (FrameRecord r)
  end.

(** Every access to an expired job removes it from the store. *)
Definition expired_access_evicts (conn : nat) (jobId : string) (now : Z)
    (st : State) : Prop :=
  forall r, reports st !! jobId = Some r -> expired r now ->
    reports (fst (report_status conn jobId now st)) !! jobId = None
    /\ reports (fst (download_report jobId now st)) !! jobId = None.

(** Two states the server reaches: a job still pending, and a job whose
    deferred transition has run. *)
Definition st_pending : State :=
  run init [GenerateReq (Some "Inventory Report") "job-1" 0].

Definition st_completed : State :=
  run init [GenerateReq (Some "Sales Report") "job-1" 0; TimerFire 0].

(** The job of a request named [bell_name], completed. *)
Definition st_bell : State :=
  run init [GenerateReq (Some bell_name) "job-1" 0; TimerFire 0].


(** *** The job store over a run *)

(** The values of [uuidv4()] drawn over a run: one per request whose name
    passes the check. *)
Definition drawn (e : Event) : option string :=
  match e with
  | GenerateReq (Some nm) uuid _ =>
      if Js.truthy_value nm then Some uuid else None
  | _ => None
  end.

Definition uuids (es : list Event) : list string := omap drawn es.

(** The value of [uuidv4()] a turn hands back as the job id: the request
    has a non-empty string for a name. *)
Definition answered (e : Event) : option string :=
  match e with
  | GenerateReq (Some (Js.JString nm)) uuid _ =>
      if Js.truthy nm then Some uuid else None
  | _ => None
  end.

Definition pending_record (name : Js.value) (now : Z) : ReportData :=
  mkReport pending name now None None.

(** A deferred transition that has not run yet, with what it captured. *)
Record Due : Type := mkDue {
  due_job : string;
  due_name : string;
  due_now : Z
}.

Definition due_of (t : Timer) : option Due :=
  match callback t with
  | Complete j nm now => Some (mkDue j nm now)
  | CheckStatus _ _ => None
  end.

Definition due (st : State) : list Due := omap due_of (timers st).

(** The two records a job can have. *)
Definition record_shape (jobId : string) (r : ReportData) : Prop :=
  r = pending_record (name r) (createdAt r)
  \/ exists nm : string, r = completed_record jobId nm (createdAt r).

Definition shape_inv (st : State) : Prop :=
  forall (j : string) r, reports st !! j = Some r -> record_shape j r.

(** The payload goes with the status. *)
Definition payload_matches (r : ReportData) : Prop :=
  (is_Some (filePath r) <-> status r = completed)
  /\ (is_Some (error r) <-> status r = failed).

(** What relates the store and the timers to the ids drawn so far. *)
Record store_inv (ids : list string) (st : State) : Prop := mkStoreInv {
  inv_known : forall (j : string) r, reports st !! j = Some r -> j ∈ ids;
  inv_due_known : forall d, d ∈ due st -> due_job d ∈ ids;
  inv_due_once : NoDup (due_job <$> due st);
  inv_due_pending : forall d r, d ∈ due st ->
    reports st !! due_job d = Some r -> r = pending_record (due_name d) (due_now d)
}.

(** What one turn of the event loop does to the store and to the deferred
    transitions, with the ids it draws and the ids it returns. *)
Inductive step_effect (st st' : State) : list string -> list string -> Prop :=
| eff_read :
    reports st' ⊆ reports st -> due st' = due st ->
    step_effect st st' [] []
| eff_create (nm : string) uuid now :
    nm <> "" ->
    reports st' = <[uuid := pending_record nm now]> (reports st) ->
    due st' = due st ++ [mkDue uuid nm now] ->
    step_effect st st' [uuid] [uuid]
| eff_stuck (v : Js.value) uuid now :
    Js.truthy_value v = true -> (forall nm : string, v <> nm) ->
    reports st' = <[uuid := pending_record v now]> (reports st) ->
    due st' = due st ->
    step_effect st st' [uuid] []
| eff_complete j nm now l1 l2 :
    due st = l1 ++ mkDue j nm now :: l2 -> due st' = l1 ++ l2 ->
    reports st' = <[j := completed_record j nm now]> (reports st) ->
    step_effect st st' [] [].

(** A later record of a job, seen from an earlier one. *)
Definition evolves (jobId : string) (r r' : ReportData) : Prop :=
  r' = r
  \/ exists nm : string,
       r = pending_record nm (createdAt r)
       /\ r' = completed_record jobId nm (createdAt r).

(** The state agrees with the record [r] seen earlier for [jobId]. *)
Definition follows (jobId : string) (r : ReportData) (st : State) : Prop :=
  (forall r', reports st !! jobId = Some r' -> evolves jobId r r')
  /\ (forall d, d ∈ due st -> due_job d = jobId ->
        r = pending_record (due_name d) (due_now d)).

(** The job ids the generation endpoint returned over a run. *)
Definition returned_ids (outs : list Output) : list string :=
  omap (fun o => json_jobId (acts_of o)) outs.

(** The ids of the store and of the deferred transitions were drawn, those
    of the transitions and of the jobs named by a string were returned, and
    every name passed the check. *)
Definition known_inv (ids rets : list string) (st : State) : Prop :=
  (forall (j : string) r, reports st !! j = Some r ->
     (j ∈ ids) /\ Js.truthy_value (name r) = true
     /\ ((exists nm : string, name r = nm) -> j ∈ rets))
  /\ (forall d, d ∈ due st ->
        (due_job d ∈ ids) /\ (due_job d ∈ rets) /\ due_name d <> "").

(** *** Event streams over a run *)

(** The response objects of the status requests of a run. *)
Definition opened (es : list Event) : list nat :=
  omap (fun e => match e with StatusReq c _ _ => Some c | _ => None end) es.

(** Everything written to the response [conn] by a sequence of turns. *)
Fixpoint stream_of (conn : nat) (outs : list Output) : list Action :=
  match outs with
  | [] => []
  | Push c acts :: rest =>
      if bool_decide (c = conn) then acts ++ stream_of conn rest
      else stream_of conn rest
  | _ :: rest => stream_of conn rest
  end.

Definition is_poll (conn : nat) (t : Timer) : bool :=
  match callback t with
  | CheckStatus c _ => bool_decide (c = conn)
  | Complete _ _ _ => false
  end.

(** The pending [checkStatus] timers of the response [conn]. *)
Fixpoint poll_count (conn : nat) (l : list Timer) : nat :=
  match l with
  | [] => 0%nat
  | t :: l => ((if is_poll conn t then 1 else 0) + poll_count conn l)%nat
  end.

Definition record_writes (rs : list ReportData) : list Action :=
  map (fun r => Write (FrameRecord r)) rs.

(** The frame after which a stream ends: an error or a terminal record. *)
Definition final_frame (f : Frame) : Prop :=
  match f with
  | FrameError _ => True
  | FrameRecord r => is_terminal (status r) = true
  end.

(** A stream still open: the headers, then records, all pending. *)
Definition open_stream (log : list Action) : Prop :=
  exists rs, Forall (fun r => status r = pending) rs
             /\ log = sse_headers ++ record_writes rs.

(** A stream that has ended: the headers, pending records, one final frame
    and the end, with nothing after it. *)
Definition closed_stream (log : list Action) : Prop :=
  exists rs f, Forall (fun r => status r = pending) rs /\ final_frame f
               /\ log = sse_headers ++ record_writes rs ++ [Write f; End].

Definition stream_shape (log : list Action) : Prop :=
  log = [] \/ open_stream log \/ closed_stream log.

Definition stream_inv (conn : nat) (es : list Event) (st : State)
    (log : list Action) : Prop :=
  ((conn ∉ opened es) /\ log = [] /\ poll_count conn (timers st) = 0%nat)
  \/ ((conn ∈ opened es) /\ open_stream log
      /\ (poll_count conn (timers st) <= 1)%nat)
  \/ ((conn ∈ opened es) /\ closed_stream log
      /\ poll_count conn (timers st) = 0%nat).

End ServerProps.

(** ** Further properties of the server *)
Module ServerMoreProps.
Import Server Http ServerProps.

(** Every code unit of [s] satisfies [p]. *)
Fixpoint all_chars (p : ascii -> bool) (s : string) : bool :=
  match s with
  | EmptyString => true
  | String c r => p c && all_chars p r
  end.

Definition not_space (c : ascii) : bool := negb (Js.is_space c).

(** The code unit is not changed by [toLowerCase]. *)
Definition is_lower (c : ascii) : bool :=
  bool_decide (Js.lower_char c = c).

(** The name of a job as it appears in file names. *)
Definition slug (name : string) : string :=
  Js.replace_spaces (Js.toLowerCase name).

(** Every pending job of the store that a string names has a deferred
    transition waiting. *)
Definition scheduled_inv (st : State) : Prop :=
  forall (j : string) r (nm : string),
    reports st !! j = Some r -> status r = pending -> name r = nm ->
    exists d, (d ∈ due st) /\ due_job d = j.

(** The name mentions sales, in any letter case. *)
Definition mentions_sales (name : string) : Prop :=
  exists pre mid post,
    name = pre +:+ mid +:+ post /\ Js.toLowerCase mid = "sales".

Definition sales_rows : string :=
  "1,Product A,1000" +:+ String "010" "" +:+ "2,Product B,2000"
    +:+ String "010" "" +:+ "3,Product C,3000".

Definition item_rows : string :=
  "1,Item X,50" +:+ String "010" "" +:+ "2,Item Y,75"
    +:+ String "010" "" +:+ "3,Item Z,100".

End ServerMoreProps.

(** ** Properties of the client hook *)
Module ClientProps.
Import Client.

(** The job list a key of the storage holds, none for a fresh key. *)
Definition stored_jobs (localStorage : gmap string (list ReportJob))
    (storageConfig : option StorageConfig) : list ReportJob :=
  default [] (localStorage !! storageKey_of storageConfig).

(** What is kept on reload: not completed and younger than the
    expiry window at [now]. *)
Definition rehydrated (expiry now : Z) (job : ReportJob) : Prop :=
  status (job_status job) <> completed /\ now - createdAt job < expiry.

#[global] Instance rehydrated_dec expiry now job :
  Decision (rehydrated expiry now job).
Proof. unfold rehydrated. apply _. Defined.

(** The navigations among the effects of one handler run. *)
Definition nav_count (effs : list Effect) : nat :=
  length (filter (fun e => is_navigation e = true) effs).

(** The job [j] after a [completed] frame read at time [t]. *)
Definition downloaded_job (data : ReportStatus) (t : Z) (j : ReportJob) : ReportJob :=
  mkJob (id j) (mkStatus (status data) (error data) (Some t))
        (name j) (createdAt j) (Some true).

Definition sample_job : ReportJob :=
  mkJob "job-1" (mkStatus pending None (Some 0)) "Sales Report" 0 (Some false).

Definition sample_api : ApiConfig :=
  mkApiConfig "http://localhost:3000/api" "/generate-report"
    (fun jobId => "/report-status/" +:+ jobId)
    (fun jobId => "/download-report/" +:+ jobId).

Definition completed_frame : ReportStatus := mkStatus completed None None.

(** Two [completed] frames for the same job, one after the other. *)
Definition repeated_frames : list Message :=
  [mkMessage "job-1" completed_frame (fun _ => 8000);
   mkMessage "job-1" completed_frame (fun _ => 8050)].

Definition failed_job : ReportJob :=
  mkJob "job-2" (mkStatus failed (Some "Connection error") (Some 5))
        "Inventory Report" 1000 (Some false).

Definition finished_job : ReportJob :=
  mkJob "job-3" (mkStatus completed None (Some 9000)) "Sales Report" 1000 (Some true).

Definition sample_storage : gmap string (list ReportJob) :=
  {[ "report_jobs" := [sample_job; failed_job; finished_job] ]}.

End ClientProps.

(** ** The rest of the hook: [useReportGeneration] *)
Module Hook.
Import Client.

(** An [EventSource], known by the URL it was opened on. *)
Definition Source : Type := string.

(** The cells of the hook: the three [useState] values and the object
    [eventSourcesRef.current], here the map of its own properties, from job
    ids to open sources. *)
Record HookState : Type := mkHook {
  jobs : list ReportJob;
  isStatusOpen : bool;
  showDownloadSection : bool;
  eventSources : gmap string Source
}.

(** What the hook does besides updating its cells: the effects of a stream
    handler, [new EventSource(url)], the [onJobAdded] callback, and the
    exception that leaves a handler. *)
Inductive HookEffect : Type :=
| StreamEffect (e : Effect)
| OpenSource (jobId : string) (url : string)
| JobAdded (job : ReportJob)
| Thrown (error : string).

(** [eventSources[jobId]] is truthy.  The object is a plain one: it has the
    sources registered under their ids and, under the names of the members
    of [Object.prototype], what it inherits. *)
Definition truthy_at (eventSources : gmap string Source) (jobId : string) : bool :=
  bool_decide (is_Some (eventSources !! jobId)) || Js.inherited jobId.

(** [onSuccess] of the mutation, for the parsed [jobId] and the name given
    by [getJobName]; [Date.now()] is read for the status, then for
    [createdAt]. *)
Definition onSuccess (jobId name : string) (clock : Clock) (h : HookState)
    : HookState * list HookEffect :=
  let newJob :=
    mkJob jobId (mkStatus pending None (Some (clock 0%nat))) name (clock 1%nat)
          (Some false) in
  (mkHook (jobs h ++ [newJob]) true true (eventSources h), [JobAdded newJob]).

Definition status_url (apiConfig : ApiConfig) (jobId : string) : string :=
  baseUrl apiConfig +:+ statusEndpoint apiConfig jobId.

(** The jobs the effect opens a stream for: pending, with nothing under
    their id in the object. *)
Definition needs_source (ref : gmap string Source) (job : ReportJob) : Prop :=
  status (job_status job) = pending /\ truthy_at ref (id job) = false.

#[global] Instance needs_source_dec ref job : Decision (needs_source ref job).
Proof. unfold needs_source. apply _. Defined.

(** The effect on [jobs.length]: [newPendingJobs] is computed first, then a
    source is opened and registered for each of its jobs. *)
Definition connect_pending (apiConfig : ApiConfig) (h : HookState)
    : HookState * list HookEffect :=
  let newPendingJobs := filter (needs_source (eventSources h)) (jobs h) in
  (mkHook (jobs h) (isStatusOpen h) (showDownloadSection h)
          (foldl (fun ref job => <[id job := status_url apiConfig (id job)]> ref)
                 (eventSources h) newPendingJobs),
   map (fun job => OpenSource (id job) (status_url apiConfig (id job)))
       newPendingJobs).

(** The same effect in the revision without the ref: the map is local to
    one run and the test is made inside the loop; the URL has no base. *)
Fixpoint connect_each (apiConfig : ApiConfig) (eventSources : gmap string Source)
    (jobs : list ReportJob) : gmap string Source * list HookEffect :=
  match jobs with
  | [] => (eventSources, [])
  | job :: rest =>
      if bool_decide (needs_source eventSources job) then
        let url := statusEndpoint apiConfig (id job) in
        let '(ref, effs) :=
          connect_each apiConfig (<[id job := url]> eventSources) rest in
        (ref, OpenSource (id job) url :: effs)
      else connect_each apiConfig eventSources rest
  end.

(** [eventSource.onmessage] with the ref: the handler of the stream, then
    the source leaves the map on a terminal status. *)
Definition stream_message (apiConfig : ApiConfig) (jobId : string)
    (data : ReportStatus) (clock : Clock) (h : HookState)
    : HookState * list HookEffect :=
  let '(jobs', effs) := onmessage WithBaseUrl apiConfig jobId data clock (jobs h) in
  (mkHook jobs' (isStatusOpen h) (showDownloadSection h)
          (if bool_decide (status data = completed)
              || bool_decide (status data = failed)
           then delete jobId (eventSources h) else eventSources h),
   map StreamEffect effs).

(** [eventSource.onerror], closed over the [job] of the moment the stream
    was opened. *)
Definition onerror (job : ReportJob) (clock : Clock) (h : HookState)
    : HookState * list HookEffect :=
  let failedJob :=
    mkJob (id job)
          (mkStatus failed (Some "Connection error") (Some (clock 0%nat)))
          (name job) (createdAt job) (downloaded job) in
  (mkHook (map (fun j => if bool_decide (id j = id job) then failedJob else j)
               (jobs h))
          (isStatusOpen h) (showDownloadSection h)
          (delete (id job) (eventSources h)),
   [StreamEffect (JobFailed failedJob); StreamEffect (CloseSource (id job))]).

(** [handleRemoveJob].  Under an id that names a member of
    [Object.prototype] and has no source, the test finds that member, which
    has no [close]: the call throws, after the jobs were updated. *)
Definition handleRemoveJob (jobId : string) (h : HookState)
    : HookState * list HookEffect :=
  let updatedJobs := filter (fun job => id job <> jobId) (jobs h) in
  (mkHook updatedJobs (isStatusOpen h)
          (if bool_decide (length updatedJobs = 0%nat) then false
           else showDownloadSection h)
          (delete jobId (eventSources h)),
   match eventSources h !! jobId with
   | Some _ => [StreamEffect (CloseSource jobId)]
   | None => if Js.inherited jobId then [Thrown "TypeError"] else []
   end).

Definition handleCancelAll (h : HookState) : HookState * list HookEffect :=
  let completedJobs :=
    filter (fun job => status (job_status job) = completed) (jobs h) in
  (mkHook completedJobs (isStatusOpen h) false ∅,
   map (fun kv => StreamEffect (CloseSource (fst kv)))
       (map_to_list (eventSources h))).

(** The effect on [jobs]: [localStorage.setItem(storageKey, ...)]. *)
Definition persist (storageConfig : option StorageConfig) (h : HookState)
    (localStorage : gmap string (list ReportJob))
    : gmap string (list ReportJob) :=
  <[storageKey_of storageConfig := jobs h]> localStorage.

(** The hook when the page loads. *)
Definition mount (localStorage : gmap string (list ReportJob))
    (storageConfig : option StorageConfig) (clock : Clock) : HookState :=
  mkHook (initial_jobs localStorage storageConfig clock) false false ∅.

End Hook.

(** ** The status panel: [components/DownloadStatus.tsx] *)
Module Panel.
Import Client.

(** One [ListItem]: its key, whether it shows the check mark or the
    progress bar, its two lines, and the job its Cancel button removes. *)
Record Row : Type := mkRow {
  row_key : string;
  check_mark : bool;
  primary : string;
  secondary : Status;
  cancel : option string
}.

(** What [DownloadStatus] renders: the count in the title and the badge,
    whether the list is expanded, its rows, and whether the Cancel All
    button is in the list. *)
Record View : Type := mkView {
  badge : nat;
  expanded : bool;
  rows : list Row;
  cancel_all : bool
}.

Definition render_row (job : ReportJob) : Row :=
  mkRow (id job)
        (bool_decide (status (job_status job) = completed))
        (name job)
        (status (job_status job))
        (if bool_decide (status (job_status job) = pending)
         then Some (id job) else None).

Definition DownloadStatus (jobs : list ReportJob) (isOpen : bool) : View :=
  let pendingJobs :=
    filter (fun job => status (job_status job) = pending) jobs in
  mkView (length pendingJobs) isOpen (map render_row jobs)
         (bool_decide (0 < length pendingJobs)%nat).

(** [App] mounts the panel only when [showDownloadSection] holds. *)
Definition panel (h : Hook.HookState) : option View :=
  if Hook.showDownloadSection h
  then Some (DownloadStatus (Hook.jobs h) (Hook.isStatusOpen h))
  else None.

End Panel.

(** ** Properties of the rest of the hook *)
Module HookProps.
Import Client ClientProps Hook.

(** The job ids of the sources a run of the effect opened, in order. *)
Definition opened_ids (effs : list HookEffect) : list string :=
  omap (fun e => match e with OpenSource j _ => Some j | _ => None end) effs.

(** Some job of the list is pending under the id [k]. *)
Definition pending_in (jobs : list ReportJob) (k : string) : Prop :=
  exists job, job ∈ jobs /\ id job = k /\ status (job_status job) = pending.

(** Some job of the list is pending under the id [k], and [k] does not name
    a member of [Object.prototype]. *)
Definition streamable (jobs : list ReportJob) (k : string) : Prop :=
  pending_in jobs k /\ Js.inherited k = false.

(** A pending job whose id is the name of a member of [Object.prototype]. *)
Definition constructor_job : ReportJob :=
  mkJob "constructor" (mkStatus pending None (Some 0)) "Sales Report" 0 (Some false).

(** What a stream never changes in a job. *)
Definition identity (job : ReportJob) : string * string * Z :=
  (id job, name job, createdAt job).

(** The [downloaded] flag is set. *)
Definition is_downloaded (job : ReportJob) : bool := negb (not_downloaded job).

(** What a frame [data] for the stream of [jobId] makes of the job [j]:
    a job of another id is left as it is; a job of that id takes the status
    and the error of the frame and a fresh timestamp, keeps its identity,
    and keeps its [downloaded] flag unless the frame is [completed] and the
    flag was not set, in which case it is set. *)
Definition updated_by (jobId : string) (data : ReportStatus)
    (j j' : ReportJob) : Prop :=
  if decide (id j = jobId) then
    identity j' = identity j
    /\ status (job_status j') = status data
    /\ error (job_status j') = error data
    /\ is_Some (timestamp (job_status j'))
    /\ (if bool_decide (status data = completed) && not_downloaded j
        then downloaded j' = Some true
        else downloaded j' = downloaded j)
  else j' = j.

(** What no frame undoes: the identity, and a [downloaded] flag once set. *)
Definition kept_by (j j' : ReportJob) : Prop :=
  identity j' = identity j
  /\ (is_downloaded j = true -> is_downloaded j' = true).

Definition sample_source : Source :=
  "http://localhost:3000/api/report-status/job-1".

Definition sample_hook : HookState :=
  mkHook [sample_job; failed_job; finished_job] true true
         {[ "job-1" := sample_source ]}.

End HookProps.

(** ** Proofs about the server *)
Module ServerProofs.
Import Server Http ServerProps.

Lemma ready_true r :
  ready r = true <->
  status r = completed /\ exists p, filePath r = Some p /\ p <> "".
Proof.
  unfold ready. rewrite andb_true_iff, bool_decide_eq_true. split.
  - intros [Hs Hp]. split; [done |].
    destruct (filePath r) as [p|]; [| discriminate].
    exists p. split; [done |]. intros ->. discriminate.
  - intros [Hs (p & -> & Hne)]. split; [done |].
    destruct p; [congruence | done].
Qed.

Lemma ready_false r :
  ready r = false <->
  status r <> completed \/ filePath r = None \/ filePath r = Some "".
Proof.
  rewrite <- not_true_iff_false, ready_true. split.
  - intros H. destruct (decide (status r = completed)) as [Hs|Hs]; [| tauto].
    right. destruct (filePath r) as [p|]; [| tauto].
    destruct p; [tauto |]. exfalso. apply H. split; [done |].
    eexists. split; [done | discriminate].
  - intros [H|[H|H]] [Hs (p & Hp & Hne)]; congruence.
Qed.

Lemma download_report_unfold jobId now st r :
  reports st !! jobId = Some r ->
  download_report jobId now st =
    if negb (ready r) then
      (st, Reply [SetStatus 400; JsonError "Report is not ready for download"])
    else if createdAt r <? now - expiry_window then
      (delete_report jobId st, Reply [SetStatus 400; JsonError "Report has expired"])
    else (st, Reply (file_reply (name r))).
Proof.
  intros Hr. unfold download_report, ready, file_reply, disposition. rewrite Hr.
  rewrite negb_andb.
  destruct (_ || _); [done |]. destruct (_ <? _); [done |].
  destruct (name r) as [nm | | | |]; try done.
  by destruct (Js.valid_header_value _).
Qed.

Lemma file_reply_sendable r (nm : string) :
  name r = nm -> sendable r = true ->
  file_reply (name r)
  = [SetHeader "Content-Type" "text/csv";
     SetHeader "Content-Disposition" (disposition nm);
     Send (csv_content nm)].
Proof.
  unfold sendable, file_reply. intros -> Hv. by rewrite Hv.
Qed.

Lemma file_reply_thrown v :
  thrown (file_reply v) = None ->
  exists nm : string, v = nm /\ Js.valid_header_value (disposition nm) = true.
Proof.
  unfold file_reply. destruct v as [nm | | | |]; try discriminate.
  destruct (Js.valid_header_value _) eqn:Hv; [| discriminate].
  intros _. by exists nm.
Qed.

Lemma file_reply_throws r :
  sendable r = false ->
  status_code (file_reply (name r)) = 500
  /\ sent (file_reply (name r)) = None
  /\ json_error (file_reply (name r)) = None
  /\ json_jobId (file_reply (name r)) = None
  /\ header "Content-Disposition" (file_reply (name r)) = None
  /\ exists e, thrown (file_reply (name r)) = Some e.
Proof.
  unfold sendable, file_reply. destruct (name r) as [nm | | | |].
  - intros ->. repeat split. by eexists.
  - intros _. repeat split. by eexists.
  - intros _. repeat split. by eexists.
  - intros _. repeat split. by eexists.
  - intros _. repeat split. by eexists.
Qed.

Lemma file_reply_json_jobId v : json_jobId (file_reply v) = None.
Proof.
  unfold file_reply. destruct v; try done. by destruct (Js.valid_header_value _).
Qed.

Lemma disposition_attachment nm :
  Js.startsWith "attachment; filename=" (disposition nm) = true.
Proof.
  unfold disposition, Js.startsWith, String.app. simpl.
  match goal with |- String.prefix "" ?s = true => by destruct s end.
Qed.

Lemma csv_content_header nm : Js.startsWith "id,name,value" (csv_content nm) = true.
Proof. unfold csv_content. destruct (Js.includes _ _); reflexivity. Qed.

(** C4, as the code has it.  The download endpoint answers 404 [Report not
    found] for an unknown job; 400 [Report is not ready for download] for a
    job that is not completed or has no file path; 400 [Report has expired],
    deleting the record, for a ready job past the expiry window.  For a ready
    job within the window it sends the CSV with [Content-Type: text/csv] and
    an attachment disposition when the name is a string whose file name is a
    valid header value; when it is not, the handler throws before
    [res.send]: the answer is 500, no file is sent and no disposition is
    set.  The store is untouched in every case but the expired one.  The
    last case is reached: the job of a request named [bell_name], once
    completed, cannot be downloaded. *)
Theorem download_report_answers (jobId : string) (now : Z) (st : State) :
  let st' := fst (download_report jobId now st) in
  let acts := acts_of (snd (download_report jobId now st)) in
  (reports st !! jobId = None ->
     status_code acts = 404 /\ json_error acts = Some "Report not found"
     /\ sent acts = None /\ st' = st)
  /\ (forall r, reports st !! jobId = Some r ->
        status r <> completed \/ filePath r = None \/ filePath r = Some "" ->
        status_code acts = 400
        /\ json_error acts = Some "Report is not ready for download"
        /\ sent acts = None /\ st' = st)
  /\ (forall r, reports st !! jobId = Some r -> ready r = true ->
        expired r now ->
        status_code acts = 400 /\ json_error acts = Some "Report has expired"
        /\ sent acts = None
        /\ reports st' = delete jobId (reports st) /\ timers st' = timers st)
  /\ (forall r, reports st !! jobId = Some r -> ready r = true ->
        ~ expired r now -> sendable r = true ->
        exists nm : string,
          name r = nm
          /\ status_code acts = 200 /\ json_error acts = None
          /\ thrown acts = None
          /\ header "Content-Type" acts = Some "text/csv"
          /\ header "Content-Disposition" acts = Some (disposition nm)
          /\ Js.startsWith "attachment; filename=" (disposition nm) = true
          /\ sent acts = Some (csv_content nm)
          /\ Js.startsWith "id,name,value" (csv_content nm) = true
          /\ st' = st)
  /\ (forall r, reports st !! jobId = Some r -> ready r = true ->
        ~ expired r now -> sendable r = false ->
        status_code acts = 500 /\ (exists e, thrown acts = Some e)
        /\ sent acts = None /\ json_error acts = None
        /\ header "Content-Disposition" acts = None
        /\ st' = st)
  /\ (reports st_bell !! "job-1" = Some (completed_record "job-1" bell_name 0)
      /\ ready (completed_record "job-1" bell_name 0) = true
      /\ ~ expired (completed_record "job-1" bell_name 0) 9000
      /\ sendable (completed_record "job-1" bell_name 0) = false).
Proof.
  cbv zeta. split; [| split; [| split; [| split; [| split]]]].
  - intros Hnone. unfold download_report. rewrite Hnone. repeat split.
  - intros r Hr Hnr. rewrite (download_report_unfold _ _ _ _ Hr).
    apply ready_false in Hnr. rewrite Hnr. repeat split.
  - intros r Hr Hrdy Hexp. rewrite (download_report_unfold _ _ _ _ Hr), Hrdy.
    apply Z.ltb_lt in Hexp. simpl negb. cbv iota. rewrite Hexp. repeat split.
  - intros r Hr Hrdy Hexp Hsend. rewrite (download_report_unfold _ _ _ _ Hr), Hrdy.
    apply Z.ltb_nlt in Hexp. simpl negb. cbv iota. rewrite Hexp.
    assert (Hnm : exists nm : string, name r = nm).
    { unfold sendable in Hsend. destruct (name r); try discriminate. eauto. }
    destruct Hnm as [nm Hnm]. exists nm.
    cbn [fst snd acts_of]. rewrite (file_reply_sendable r nm Hnm Hsend).
    split; [done |].
    repeat (split; [reflexivity |]).
    split; [apply disposition_attachment |].
    split; [reflexivity |]. split; [apply csv_content_header | done].
  - intros r Hr Hrdy Hexp Hsend. rewrite (download_report_unfold _ _ _ _ Hr), Hrdy.
    apply Z.ltb_nlt in Hexp. simpl negb. cbv iota. rewrite Hexp.
    cbn [fst snd acts_of].
    destruct (file_reply_throws r Hsend) as (H1 & H2 & H3 & _ & H4 & H5).
    repeat split; assumption.
  - repeat split. unfold expired, expiry_window. simpl. lia.
Qed.

Lemma download_report_answers_witness :
  status_code (acts_of (snd (download_report "job-2" 1000 st_completed))) = 404
  /\ json_error (acts_of (snd (download_report "job-1" 1000 st_pending)))
     = Some "Report is not ready for download"
  /\ reports (fst (download_report "job-1" 1800001 st_completed)) !! "job-1" = None
  /\ (exists nm : string,
        header "Content-Disposition"
          (acts_of (snd (download_report "job-1" 1000 st_completed)))
        = Some (disposition nm))
  /\ status_code (acts_of (snd (download_report "job-1" 9000 st_bell))) = 500
  /\ sent (acts_of (snd (download_report "job-1" 9000 st_bell))) = None.
Proof.
  split; [| split; [| split; [| split]]].
  - apply (download_report_answers "job-2" 1000 st_completed). reflexivity.
  - apply (download_report_answers "job-1" 1000 st_pending)
      with (r := mkReport pending "Inventory Report" 0 None None).
    + reflexivity.
    + left. discriminate.
  - destruct (download_report_answers "job-1" 1800001 st_completed)
      as (_ & _ & H & _).
    destruct (H (completed_record "job-1" "Sales Report" 0))
      as (_ & _ & _ & Hdel & _).
    + reflexivity.
    + reflexivity.
    + unfold expired, expiry_window. simpl. lia.
    + rewrite Hdel. apply lookup_delete_eq.
  - destruct (download_report_answers "job-1" 1000 st_completed)
      as (_ & _ & _ & H & _).
    destruct (H (completed_record "job-1" "Sales Report" 0))
      as (nm & _ & _ & _ & _ & _ & Hd & _).
    + reflexivity.
    + reflexivity.
    + unfold expired, expiry_window. simpl. lia.
    + reflexivity.
    + exists nm. exact Hd.
  - destruct (download_report_answers "job-1" 9000 st_bell)
      as (_ & _ & _ & _ & H & Hr & Hrdy & Hexp & Hsend).
    destruct (H _ Hr Hrdy Hexp Hsend) as (H1 & _ & H2 & _).
    split; assumption.
Defined.


(** *** The status stream, one write at a time *)

Lemma checkStatus_unfold conn jobId st :
  checkStatus conn jobId st =
    match reports st !! jobId with
    | None => (st, [Write (FrameError "Report not found"); End])
    | Some r =>
        if is_terminal (status r) then (st, [Write (FrameRecord r); End])
        else (setTimeout (CheckStatus conn jobId) 50000 st, [Write (FrameRecord r)])
    end.
Proof. reflexivity. Qed.

Lemma checkStatus_reports conn jobId st :
  reports (fst (checkStatus conn jobId st)) = reports st.
Proof.
  rewrite checkStatus_unfold. destruct (reports st !! jobId) as [r|]; [| done].
  destruct (is_terminal (status r)); done.
Qed.

Lemma frames_sse_headers acts : frames (sse_headers ++ acts) = frames acts.
Proof. reflexivity. Qed.

Lemma ended_sse_headers acts : ended (sse_headers ++ acts) = ended acts.
Proof. reflexivity. Qed.

Lemma report_status_live conn jobId now st r :
  reports st !! jobId = Some r -> ~ expired r now ->
  report_status conn jobId now st =
    (fst (checkStatus conn jobId st),
     Push conn (sse_headers ++ snd (checkStatus conn jobId st))).
Proof.
  intros Hr Hexp. unfold report_status. rewrite Hr.
  apply Z.ltb_nlt in Hexp. rewrite Hexp.
  destruct (checkStatus conn jobId st). reflexivity.
Qed.

Lemma report_status_expired conn jobId now st r :
  reports st !! jobId = Some r -> expired r now ->
  report_status conn jobId now st =
    (delete_report jobId st,
     Push conn (sse_headers ++ [Write (FrameError "Report expired"); End])).
Proof.
  intros Hr Hexp. unfold report_status. rewrite Hr.
  apply Z.ltb_lt in Hexp. rewrite Hexp. reflexivity.
Qed.

(** C5, as the code has it.  For a job of the store that is past the expiry
    window: a status request writes [Report expired], ends the stream and
    deletes the job; a download fails with status 400 and sends no file, it
    deletes the job when the job is ready ([Report has expired]) and leaves
    the store as it is when the job is not ([Report is not ready for
    download]). *)
Theorem expired_job_access (conn : nat) (jobId : string) (now : Z) (st : State)
    (r : ReportData) :
  reports st !! jobId = Some r -> expired r now ->
  (let st' := fst (report_status conn jobId now st) in
   let acts := acts_of (snd (report_status conn jobId now st)) in
   frames acts = [FrameError "Report expired"] /\ ended acts = true
   /\ reports st' = delete jobId (reports st) /\ reports st' !! jobId = None)
  /\ (let st' := fst (download_report jobId now st) in
      let acts := acts_of (snd (download_report jobId now st)) in
      status_code acts = 400 /\ sent acts = None
      /\ (ready r = true ->
            json_error acts = Some "Report has expired"
            /\ reports st' = delete jobId (reports st)
            /\ reports st' !! jobId = None)
      /\ (ready r = false ->
            json_error acts = Some "Report is not ready for download"
            /\ st' = st)).
Proof.
  intros Hr Hexp. cbv zeta. split.
  - rewrite (report_status_expired _ _ _ _ _ Hr Hexp). simpl.
    repeat split. apply lookup_delete_eq.
  - rewrite (download_report_unfold _ _ _ _ Hr).
    apply Z.ltb_lt in Hexp.
    destruct (ready r); simpl negb; cbv iota; rewrite ?Hexp; simpl.
    + repeat split; try discriminate. apply lookup_delete_eq.
    + repeat split; discriminate.
Qed.

Lemma expired_job_access_witness :
  reports (fst (report_status 0 "job-1" 1800001 st_completed)) !! "job-1" = None
  /\ status_code (acts_of (snd (download_report "job-1" 1800001 st_completed))) = 400.
Proof.
  assert (Hr : reports st_completed !! "job-1"
               = Some (completed_record "job-1" "Sales Report" 0)) by reflexivity.
  assert (Hexp : expired (completed_record "job-1" "Sales Report" 0) 1800001)
    by (unfold expired, expiry_window; simpl; lia).
  destruct (expired_job_access 0 "job-1" 1800001 st_completed _ Hr Hexp)
    as [(_ & _ & _ & H1) (H2 & _)].
  split; assumption.
Defined.

(** C5, as the specification states it, fails: a download of a pending job that is
    past the expiry window answers 400 but leaves the job in the store. *)
Lemma expired_access_evicts_fails :
  ~ expired_access_evicts 0 "job-1" 1800001 st_pending.
Proof.
  intros H.
  destruct (H (mkReport pending "Inventory Report" 0 None None)) as [_ Hd].
  - reflexivity.
  - unfold expired, expiry_window. simpl. lia.
  - vm_compute in Hd. discriminate.
Qed.

(** C10. The status stream, in its request handler and in every later run
    of [checkStatus], and the download endpoint never add a record and never
    change one: every record of the store afterwards was there before,
    unchanged; the store is left as it was or loses exactly the requested
    job, and only when that job is past the expiry window; a download that
    sends the file leaves the whole state as it was. *)
Theorem readers_frame (conn : nat) (jobId : string) (now : Z) (st : State) :
  let evicted st' :=
    reports st' = delete jobId (reports st)
    /\ exists r, reports st !! jobId = Some r /\ expired r now in
  let kept st' :=
    forall (j : string) r, reports st' !! j = Some r -> reports st !! j = Some r in
  (let st' := fst (report_status conn jobId now st) in
   (reports st' = reports st \/ evicted st') /\ kept st')
  /\ reports (fst (checkStatus conn jobId st)) = reports st
  /\ (let st' := fst (download_report jobId now st) in
      let acts := acts_of (snd (download_report jobId now st)) in
      (reports st' = reports st \/ evicted st') /\ kept st'
      /\ (sent acts <> None -> st' = st)).
Proof.
  cbv zeta.
  assert (Hkept : forall m : gmap string ReportData,
    m = reports st \/ m = delete jobId (reports st) ->
    forall (j : string) r, m !! j = Some r -> reports st !! j = Some r).
  { intros m [-> | ->] j r; [done |].
    rewrite lookup_delete_Some. tauto. }
  split; [| split].
  - destruct (reports st !! jobId) as [r|] eqn:Hr.
    + destruct (decide (expired r now)) as [Hexp|Hexp].
      * rewrite (report_status_expired _ _ _ _ _ Hr Hexp). simpl.
        split; [right; eauto | apply Hkept; simpl; auto].
      * rewrite (report_status_live _ _ _ _ _ Hr Hexp). simpl.
        rewrite checkStatus_reports. split; [auto | apply Hkept; auto].
    + unfold report_status. rewrite Hr. simpl. auto.
  - apply checkStatus_reports.
  - destruct (reports st !! jobId) as [r|] eqn:Hr.
    + rewrite (download_report_unfold _ _ _ _ Hr).
      destruct (ready r); simpl negb; cbv iota; [| simpl; auto].
      destruct (createdAt r <? now - expiry_window) eqn:Hexp; simpl.
      * apply Z.ltb_lt in Hexp.
        split; [right; eauto | split; [apply Hkept; simpl; auto | done]].
      * auto.
    + unfold download_report. rewrite Hr. simpl. auto.
Qed.

Lemma readers_frame_witness :
  fst (download_report "job-1" 1000 st_completed) = st_completed
  /\ reports (fst (report_status 0 "job-1" 1000 st_pending)) !! "job-1"
     = Some (mkReport pending "Inventory Report" 0 None None).
Proof.
  destruct (readers_frame 0 "job-1" 1000 st_completed) as (_ & _ & _ & _ & Hd).
  destruct (readers_frame 0 "job-1" 1000 st_pending) as ((Hs & _) & _).
  split.
  - apply Hd. discriminate.
  - destruct Hs as [-> | [_ (r & Hr & Hexp)]]; [reflexivity |].
    exfalso. vm_compute in Hr. injection Hr as <-.
    unfold expired, expiry_window in Hexp. simpl in Hexp. lia.
Defined.


(** *** Runs *)

Lemma generate_report_valid (nm : string) uuid now st :
  nm <> "" ->
  generate_report (Some nm) uuid now st
  = (mkState (<[uuid := mkReport pending nm now None None]> (reports st))
             (timers st ++ [mkTimer (generation_delay nm) (Complete uuid nm now)]),
     Reply [JsonJobId uuid]).
Proof. intros Hne. unfold generate_report. destruct nm; [done | reflexivity]. Qed.

Lemma generate_report_invalid nm uuid now st :
  nm = None \/ (exists v, nm = Some v /\ Js.truthy_value v = false) ->
  generate_report nm uuid now st
  = (st, Reply [SetStatus 400; JsonError "Report name is required"]).
Proof.
  intros [-> | (v & -> & Hv)]; [reflexivity |].
  unfold generate_report. by rewrite Hv.
Qed.

Lemma generate_report_stuck v uuid now st :
  Js.truthy_value v = true -> (forall nm : string, v <> nm) ->
  generate_report (Some v) uuid now st
  = (set_report uuid (pending_record v now) st, Reply (uncaught "TypeError")).
Proof.
  intros Hv Hns. unfold generate_report. rewrite Hv.
  destruct v as [nm | | | |]; try reflexivity. by destruct (Hns nm).
Qed.

(** A value is falsy, a non-empty string, or truthy and no string. *)
Lemma value_cases v :
  Js.truthy_value v = false
  \/ (exists nm : string, v = nm /\ nm <> "")
  \/ (Js.truthy_value v = true /\ forall nm : string, v <> nm).
Proof.
  destruct (Js.truthy_value v) eqn:Hv; [| by left]. right.
  destruct v as [nm | | | |]; try (right; split; [done | discriminate]).
  left. exists nm. split; [done |]. by destruct nm.
Qed.

(** The three ways of a generation request. *)
Lemma name_cases (nm : option Js.value) :
  (nm = None \/ (exists v, nm = Some v /\ Js.truthy_value v = false))
  \/ (exists s : string, nm = Some (Js.JString s) /\ s <> "")
  \/ (exists v, nm = Some v /\ Js.truthy_value v = true
                /\ forall s : string, v <> s).
Proof.
  destruct nm as [v|]; [| by left; left].
  destruct (value_cases v) as [Hv | [(s & -> & Hs) | [Hv Hns]]].
  - left. right. by exists v.
  - right. left. by exists s.
  - right. right. by exists v.
Qed.

Lemma run_app st es1 es2 : run st (es1 ++ es2) = run (run st es1) es2.
Proof. revert st. induction es1 as [|e es1 IH]; intros st; simpl; auto. Qed.

Lemma run_snoc st es e : run st (es ++ [e]) = fst (step (run st es) e).
Proof. rewrite run_app. reflexivity. Qed.

Lemma outputs_snoc st es e :
  outputs st (es ++ [e]) = outputs st es ++ [snd (step (run st es) e)].
Proof.
  revert st. induction es as [|e' es IH]; intros st; simpl; [done |].
  rewrite IH. reflexivity.
Qed.

Lemma stream_of_app conn o1 o2 :
  stream_of conn (o1 ++ o2) = stream_of conn o1 ++ stream_of conn o2.
Proof.
  induction o1 as [|o o1 IH]; simpl; [done |].
  destruct o as [acts | c acts |]; auto.
  destruct (bool_decide (c = conn)); auto. rewrite IH, app_assoc. reflexivity.
Qed.

(** *** The shape of an event stream over a run *)

Lemma poll_count_app conn l1 l2 :
  poll_count conn (l1 ++ l2) = (poll_count conn l1 + poll_count conn l2)%nat.
Proof. induction l1 as [|t l1 IH]; simpl; [done |]. rewrite IH. lia. Qed.

Lemma poll_count_snoc conn l t :
  poll_count conn (l ++ [t])
  = (poll_count conn l + if is_poll conn t then 1 else 0)%nat.
Proof. rewrite poll_count_app. simpl. lia. Qed.

Lemma poll_count_delete conn l i t :
  l !! i = Some t ->
  poll_count conn l
  = ((if is_poll conn t then 1 else 0) + poll_count conn (delete i l))%nat.
Proof.
  revert i. induction l as [|t' l IH]; intros i Hi; [done |].
  destruct i as [|i]; simpl in *.
  - injection Hi as ->. reflexivity.
  - rewrite (IH i Hi). lia.
Qed.

Lemma checkStatus_cases conn jobId st :
  (exists f, final_frame f
             /\ snd (checkStatus conn jobId st) = [Write f; End]
             /\ timers (fst (checkStatus conn jobId st)) = timers st)
  \/ (exists r, status r = pending
                /\ reports st !! jobId = Some r
                /\ snd (checkStatus conn jobId st) = [Write (FrameRecord r)]
                /\ timers (fst (checkStatus conn jobId st))
                   = timers st ++ [mkTimer 50000 (CheckStatus conn jobId)]).
Proof.
  rewrite checkStatus_unfold. destruct (reports st !! jobId) as [r|].
  - destruct (is_terminal (status r)) eqn:Ht.
    + left. exists (FrameRecord r). simpl. auto.
    + right. exists r. destruct (status r); try discriminate. simpl. auto.
  - left. exists (FrameError "Report not found"). simpl. auto.
Qed.

Lemma report_status_cases conn jobId now st :
  exists body,
    snd (report_status conn jobId now st) = Push conn (sse_headers ++ body)
    /\ ((exists f, final_frame f /\ body = [Write f; End]
                   /\ timers (fst (report_status conn jobId now st)) = timers st)
        \/ (exists r, status r = pending /\ body = [Write (FrameRecord r)]
                      /\ timers (fst (report_status conn jobId now st))
                         = timers st ++ [mkTimer 50000 (CheckStatus conn jobId)])).
Proof.
  destruct (reports st !! jobId) as [r|] eqn:Hr.
  - destruct (decide (expired r now)) as [Hexp|Hexp].
    + rewrite (report_status_expired _ _ _ _ _ Hr Hexp).
      eexists. split; [reflexivity |]. left.
      exists (FrameError "Report expired"). simpl. auto.
    + rewrite (report_status_live _ _ _ _ _ Hr Hexp).
      eexists. split; [reflexivity |]. cbn [fst snd].
      destruct (checkStatus_cases conn jobId st)
        as [(f & Hf & Hb & Ht) | (r' & Hp & _ & Hb & Ht)]; [left | right]; eauto.
  - unfold report_status. rewrite Hr.
    eexists. split; [reflexivity |]. left.
    exists (FrameError "Report not found"). simpl. auto.
Qed.

Lemma stream_inv_same conn es es' st st' log :
  (conn ∈ opened es' <-> conn ∈ opened es) ->
  poll_count conn (timers st') = poll_count conn (timers st) ->
  stream_inv conn es st log -> stream_inv conn es' st' log.
Proof.
  intros Ho Hp. unfold stream_inv. rewrite Hp, Ho. tauto.
Qed.

Lemma opened_snoc es e :
  opened (es ++ [e])
  = opened es ++ match e with StatusReq c _ _ => [c] | _ => [] end.
Proof. unfold opened. rewrite omap_app. destruct e; reflexivity. Qed.

Lemma open_stream_final rs f :
  Forall (fun r => status r = pending) rs -> final_frame f ->
  closed_stream ((sse_headers ++ record_writes rs) ++ [Write f; End]).
Proof. intros Hrs Hf. exists rs, f. rewrite <- app_assoc. auto. Qed.

Lemma open_stream_more rs r :
  Forall (fun r => status r = pending) rs -> status r = pending ->
  open_stream ((sse_headers ++ record_writes rs) ++ [Write (FrameRecord r)]).
Proof.
  intros Hrs Hr. exists (rs ++ [r]). split.
  - apply Forall_app. split; [done | by constructor].
  - unfold record_writes. rewrite map_app, <- app_assoc. reflexivity.
Qed.

Lemma stream_inv_step conn es st log e :
  stream_inv conn es st log ->
  (forall c j now, e = StatusReq c j now -> c ∉ opened es) ->
  stream_inv conn (es ++ [e]) (fst (step st e))
             (log ++ stream_of conn [snd (step st e)]).
Proof.
  intros Hinv Hfresh.
  destruct e as [nm uuid now | c j now | j now | i]; simpl step.
  - (* generation: no stream is touched, no poll is scheduled *)
    destruct (name_cases nm) as [Hbad | [(s & -> & Hs) | (v & -> & Hv & Hns)]].
    + rewrite generate_report_invalid by done. simpl. rewrite app_nil_r.
      apply (stream_inv_same conn es _ st);
        [rewrite opened_snoc, app_nil_r; done | done | done].
    + rewrite generate_report_valid by done. simpl stream_of. rewrite app_nil_r.
      apply (stream_inv_same conn es _ st);
        [rewrite opened_snoc, app_nil_r; done | | done].
      cbn [fst timers]. rewrite poll_count_snoc.
      unfold is_poll. cbn [callback]. lia.
    + rewrite generate_report_stuck by done. simpl stream_of. rewrite app_nil_r.
      apply (stream_inv_same conn es _ st);
        [rewrite opened_snoc, app_nil_r; done | done | done].
  - (* a status request opens the stream of its response *)
    destruct (report_status_cases c j now st) as (body & Hout & Hbody).
    rewrite Hout. simpl stream_of.
    destruct (decide (c = conn)) as [->|Hne].
    + rewrite bool_decide_eq_true_2 by done. rewrite app_nil_r.
      destruct Hinv as [(_ & -> & Hp) | [(Hin & _) | (Hin & _)]];
        try (exfalso; exact (Hfresh _ _ _ eq_refl Hin)).
      assert (Hin : conn ∈ opened (es ++ [StatusReq conn j now])).
      { rewrite opened_snoc. apply elem_of_app. right. by apply list_elem_of_singleton. }
      destruct Hbody as [(f & Hf & -> & Ht) | (r & Hr & -> & Ht)].
      * right; right. split; [done |]. split.
        -- exists [], f. auto.
        -- rewrite Ht. exact Hp.
      * right; left. split; [done |]. split.
        -- exists [r]. split; [by repeat constructor | reflexivity].
        -- rewrite Ht, poll_count_snoc, Hp. unfold is_poll. cbn [callback].
           rewrite bool_decide_eq_true_2 by done. lia.
    + rewrite bool_decide_eq_false_2 by done. rewrite app_nil_r.
      apply (stream_inv_same conn es _ st); [| | done].
      * rewrite opened_snoc, elem_of_app, list_elem_of_singleton.
        split; [intros [H | H]; [done | congruence] | auto].
      * destruct Hbody as [(f & _ & _ & ->) | (r & _ & _ & ->)]; [done |].
        rewrite poll_count_snoc. unfold is_poll. cbn [callback].
        rewrite bool_decide_eq_false_2 by done. lia.
  - (* a download touches no stream and no timer *)
    assert (Hout : stream_of conn [snd (download_report j now st)] = []).
    { destruct (reports st !! j) as [r|] eqn:Hr.
      - rewrite (download_report_unfold _ _ _ _ Hr).
        destruct (negb _); [done |]. by destruct (_ <? _).
      - unfold download_report. by rewrite Hr. }
    rewrite Hout, app_nil_r.
    apply (stream_inv_same conn es _ st); [rewrite opened_snoc, app_nil_r; done | | done].
    destruct (reports st !! j) as [r|] eqn:Hr.
    + rewrite (download_report_unfold _ _ _ _ Hr).
      destruct (negb _); [done |]. by destruct (_ <? _).
    + unfold download_report. by rewrite Hr.
  - (* a timer fires *)
    assert (Hop : conn ∈ opened (es ++ [TimerFire i]) <-> conn ∈ opened es)
      by (rewrite opened_snoc, app_nil_r; done).
    unfold fire. destruct (timers st !! i) as [t|] eqn:Ht.
    2:{ simpl. rewrite app_nil_r. by apply (stream_inv_same conn es _ st). }
    pose proof (poll_count_delete conn _ _ _ Ht) as Hcount.
    destruct t as [d [j' nm' now' | c j']]; simpl run_callback.
    + simpl. rewrite app_nil_r. apply (stream_inv_same conn es _ st); [done | | done].
      simpl. simpl in Hcount. lia.
    + set (st0 := mkState (reports st) (delete i (timers st))) in *.
      destruct (checkStatus c j' st0) as [st' acts] eqn:Hcs.
      pose proof (checkStatus_cases c j' st0) as Hcases.
      rewrite Hcs in Hcases. cbn [fst snd] in Hcases |- *. simpl stream_of.
      unfold is_poll in Hcount. cbn [callback] in Hcount.
      destruct (decide (c = conn)) as [->|Hne].
      * rewrite bool_decide_eq_true_2 in Hcount |- * by done. rewrite app_nil_r.
        cbv iota in Hcount.
        destruct Hinv as [(_ & _ & Hp) | [(Hin & (rs & Hrs & ->) & Hp) | (_ & _ & Hp)]];
          try lia.
        assert (Hzero : poll_count conn (timers st0) = 0%nat) by (simpl; lia).
        destruct Hcases as [(f & Hf & -> & Htm) | (r & Hr & _ & -> & Htm)].
        -- right; right. split; [by apply Hop |]. split.
           ++ by apply open_stream_final.
           ++ rewrite Htm. exact Hzero.
        -- right; left. split; [by apply Hop |]. split.
           ++ by apply open_stream_more.
           ++ rewrite Htm, poll_count_snoc, Hzero. unfold is_poll. cbn [callback].
              rewrite bool_decide_eq_true_2 by done. lia.
      * rewrite bool_decide_eq_false_2 in Hcount |- * by done. rewrite app_nil_r.
        cbv iota in Hcount.
        apply (stream_inv_same conn es _ st); [done | | done].
        destruct Hcases as [(f & _ & _ & ->) | (r & _ & _ & _ & ->)].
        -- simpl. lia.
        -- rewrite poll_count_snoc. unfold is_poll. cbn [callback].
           rewrite bool_decide_eq_false_2 by done. simpl. lia.
Qed.

Lemma stream_inv_run conn es :
  NoDup (opened es) ->
  stream_inv conn es (run init es) (stream_of conn (outputs init es)).
Proof.
  induction es as [|e es IH] using rev_ind; intros Hnd.
  - left. repeat split. apply not_elem_of_nil.
  - rewrite opened_snoc in Hnd. apply NoDup_app in Hnd as (Hnd & Hfresh & _).
    rewrite run_snoc, outputs_snoc, stream_of_app.
    apply stream_inv_step; [by apply IH |].
    intros c j now -> Hin. apply (Hfresh c Hin). by apply list_elem_of_singleton.
Qed.

Lemma stream_inv_shape conn es st log :
  stream_inv conn es st log -> stream_shape log.
Proof. unfold stream_inv, stream_shape. tauto. Qed.

(** C3, as the code has it.  A status request for an unknown job writes
    [Report not found] and ends the stream; for a job past the expiry
    window it deletes the job, writes [Report expired] and ends the stream;
    otherwise it writes the current record at once, ends the stream right
    after it when the record is completed or failed, and else schedules
    [checkStatus] 50000 ms later.  Each later run of [checkStatus] writes
    [Report not found] and ends the stream when the record is gone, and
    else does the same with the record of that moment.  Over any run in
    which each request has its own response, what a response receives is
    nothing, or the headers and pending records only, or the headers,
    pending records, then one error or terminal record, then the end. *)
Theorem status_stream_protocol (conn : nat) (jobId : string) (now : Z)
    (st : State) :
  let st' := fst (report_status conn jobId now st) in
  let acts := acts_of (snd (report_status conn jobId now st)) in
  let st2 := fst (checkStatus conn jobId st) in
  let acts2 := snd (checkStatus conn jobId st) in
  let poll r :=
    if is_terminal (status r) then []
    else [mkTimer 50000 (CheckStatus conn jobId)] in
  (reports st !! jobId = None ->
     frames acts = [FrameError "Report not found"] /\ ended acts = true
     /\ st' = st)
  /\ (forall r, reports st !! jobId = Some r -> expired r now ->
        frames acts = [FrameError "Report expired"] /\ ended acts = true
        /\ reports st' = delete jobId (reports st) /\ timers st' = timers st)
  /\ (forall r, reports st !! jobId = Some r -> ~ expired r now ->
        frames acts = [FrameRecord r] /\ ended acts = is_terminal (status r)
        /\ reports st' = reports st /\ timers st' = timers st ++ poll r)
  /\ (reports st !! jobId = None ->
        frames acts2 = [FrameError "Report not found"] /\ ended acts2 = true
        /\ st2 = st)
  /\ (forall r, reports st !! jobId = Some r ->
        frames acts2 = [FrameRecord r] /\ ended acts2 = is_terminal (status r)
        /\ reports st2 = reports st /\ timers st2 = timers st ++ poll r)
  /\ (forall es, NoDup (opened es) ->
        stream_shape (stream_of conn (outputs init es))).
Proof.
  cbv zeta.
  assert (Hcheck : forall r, reports st !! jobId = Some r ->
    frames (snd (checkStatus conn jobId st)) = [FrameRecord r]
    /\ ended (snd (checkStatus conn jobId st)) = is_terminal (status r)
    /\ reports (fst (checkStatus conn jobId st)) = reports st
    /\ timers (fst (checkStatus conn jobId st))
       = timers st ++ (if is_terminal (status r) then []
                       else [mkTimer 50000 (CheckStatus conn jobId)])).
  { intros r Hr. rewrite checkStatus_unfold, Hr.
    destruct (is_terminal (status r)); simpl; rewrite ?app_nil_r; auto. }
  split; [| split; [| split; [| split; [| split]]]].
  - intros Hr. unfold report_status. rewrite Hr. auto.
  - intros r Hr Hexp. rewrite (report_status_expired _ _ _ _ _ Hr Hexp). auto.
  - intros r Hr Hexp. rewrite (report_status_live _ _ _ _ _ Hr Hexp).
    cbn [fst snd acts_of]. rewrite frames_sse_headers, ended_sse_headers.
    by apply Hcheck.
  - intros Hr. rewrite checkStatus_unfold, Hr. auto.
  - exact Hcheck.
  - intros es Hnd. eapply stream_inv_shape, stream_inv_run, Hnd.
Qed.

Lemma status_stream_protocol_witness :
  frames (acts_of (snd (report_status 0 "job-1" 1000 st_completed)))
  = [FrameRecord (completed_record "job-1" "Sales Report" 0)]
  /\ ended (acts_of (snd (report_status 0 "job-1" 1000 st_completed))) = true
  /\ frames (acts_of (snd (report_status 0 "job-1" 1800001 st_completed)))
     = [FrameError "Report expired"]
  /\ frames (acts_of (snd (report_status 0 "job-2" 1000 st_completed)))
     = [FrameError "Report not found"]
  /\ stream_shape
       (stream_of 0 (outputs init [GenerateReq (Some "Sales Report") "job-1" 0;
                                   StatusReq 0 "job-1" 5; TimerFire 0;
                                   TimerFire 0])).
Proof.
  pose proof (status_stream_protocol 0 "job-1" 1000 st_completed)
    as (_ & _ & Hlive & _).
  pose proof (status_stream_protocol 0 "job-1" 1800001 st_completed)
    as (_ & Hexp & _).
  pose proof (status_stream_protocol 0 "job-2" 1000 st_completed)
    as (Hnone & _ & _ & _ & _ & Hrun).
  destruct (Hlive (completed_record "job-1" "Sales Report" 0)) as (H1 & H2 & _).
  { reflexivity. }
  { unfold expired, expiry_window. simpl. lia. }
  destruct (Hexp (completed_record "job-1" "Sales Report" 0)) as (H3 & _).
  { reflexivity. }
  { unfold expired, expiry_window. simpl. lia. }
  destruct (Hnone eq_refl) as (H4 & _).
  repeat split; try assumption.
  apply Hrun. vm_compute. repeat constructor. intros H. inversion H.
Defined.

(** C3, as the specification states it, fails: a request for a completed job that is
    past the expiry window is answered with [Report expired], not with the
    record. *)
Lemma stream_opens_with_record_fails :
  ~ stream_opens_with_record 0 "job-1" 1800001 st_completed.
Proof. vm_compute. discriminate. Qed.

(** *** The deferred transition *)

Lemma complete_callback_eq jobId nm now st :
  complete_callback jobId nm now st
  = set_report jobId (completed_record jobId nm now) st.
Proof. reflexivity. Qed.

Lemma fire_last st t :
  fire (length (timers st)) (mkState (reports st) (timers st ++ [t]))
  = run_callback (callback t) st.
Proof.
  unfold fire. simpl.
  rewrite list_lookup_middle by reflexivity. rewrite delete_middle, app_nil_r.
  destruct st; reflexivity.
Qed.

(** C6. A request for ["Sales Report"] is answered at once with the job id,
    the job being recorded as pending and its transition scheduled 8000 ms
    later; when that timer fires the record is completed with a file path
    that contains [sales-report]; a download within the expiry window then
    sends a CSV that starts with [id,name,value] and contains [Product A]. *)
Theorem sales_report_scenario (uuid : string) (now now' : Z) (st : State) :
  ~ now < now' - expiry_window ->
  let st1 := fst (generate_report (Some "Sales Report") uuid now st) in
  let out1 := acts_of (snd (generate_report (Some "Sales Report") uuid now st)) in
  let i := length (timers st) in
  let st2 := fst (fire i st1) in
  let st3 := fst (download_report uuid now' st2) in
  let out3 := acts_of (snd (download_report uuid now' st2)) in
  (status_code out1 = 200 /\ json_jobId out1 = Some uuid
   /\ reports st1 !! uuid = Some (mkReport pending "Sales Report" now None None)
   /\ timers st1 !! i = Some (mkTimer 8000 (Complete uuid "Sales Report" now)))
  /\ (exists r p, reports st2 !! uuid = Some r /\ status r = completed
                  /\ name r = "Sales Report" /\ createdAt r = now
                  /\ filePath r = Some p /\ Js.includes "sales-report" p = true)
  /\ (exists csv, sent out3 = Some csv /\ status_code out3 = 200
                  /\ header "Content-Type" out3 = Some "text/csv"
                  /\ Js.startsWith "id,name,value" csv = true
                  /\ Js.includes "Product A" csv = true
                  /\ st3 = st2).
Proof.
  intros Hwin. cbv zeta.
  rewrite generate_report_valid by discriminate.
  change (generation_delay "Sales Report") with 8000.
  cbn [fst snd acts_of].
  pose proof (fire_last (mkState (<[uuid := mkReport pending "Sales Report" now None None]>
                                   (reports st)) (timers st))
                        (mkTimer 8000 (Complete uuid "Sales Report" now))) as Hfire.
  cbn [reports timers] in Hfire. rewrite Hfire. clear Hfire.
  cbn [run_callback callback fst]. rewrite complete_callback_eq.
  assert (Hr : reports (set_report uuid (completed_record uuid "Sales Report" now)
                  (mkState (<[uuid := mkReport pending "Sales Report" now None None]>
                              (reports st)) (timers st))) !! uuid
               = Some (completed_record uuid "Sales Report" now))
    by apply lookup_insert_eq.
  split; [| split].
  - repeat split.
    + apply lookup_insert_eq.
    + apply list_lookup_middle. reflexivity.
  - exists (completed_record uuid "Sales Report" now), (synth_filePath "Sales Report" uuid).
    repeat split; [exact Hr].
  - rewrite (download_report_unfold _ _ _ _ Hr).
    change (ready (completed_record uuid "Sales Report" now)) with true.
    simpl negb. cbv iota.
    assert (Hnow : (now <? now' - expiry_window) = false) by (apply Z.ltb_nlt; done).
    cbn [createdAt completed_record]. rewrite Hnow.
    eexists. repeat split.
Qed.

Lemma sales_report_scenario_witness :
  exists csv,
    sent (acts_of (snd (download_report "job-1" 9000 st_completed))) = Some csv
    /\ Js.includes "Product A" csv = true.
Proof.
  assert (Hwin : ~ 0 < 9000 - expiry_window) by (unfold expiry_window; lia).
  destruct (sales_report_scenario "job-1" 0 9000 init Hwin)
    as (_ & _ & csv & Hsent & _ & _ & _ & Hinc & _).
  exists csv. split; [exact Hsent | exact Hinc].
Defined.

(** *** The effect of one turn on the store *)

Lemma omap_delete_None {A B} (f : A -> option B) (l : list A) i t :
  l !! i = Some t -> f t = None -> omap f (delete i l) = omap f l.
Proof.
  revert i. induction l as [|a l IH]; intros [|i] Hi Hf; simpl in *; try done.
  - injection Hi as ->. by rewrite Hf.
  - destruct (f a); [f_equal |]; apply (IH i Hi Hf).
Qed.

Lemma omap_delete_Some {A B} (f : A -> option B) (l : list A) i t y :
  l !! i = Some t -> f t = Some y ->
  exists l1 l2, omap f l = l1 ++ y :: l2 /\ omap f (delete i l) = l1 ++ l2.
Proof.
  revert i. induction l as [|a l IH]; intros [|i] Hi Hf; simpl in *; try done.
  - injection Hi as ->. rewrite Hf. by exists [], (omap f l).
  - destruct (IH i Hi Hf) as (l1 & l2 & H1 & H2).
    destruct (f a) as [b|].
    + exists (b :: l1), l2. split; simpl; f_equal; [apply H1 | apply H2].
    + exists l1, l2. split; [apply H1 | apply H2].
Qed.

Lemma omap_cons_eq {A B} (f : A -> option B) (x : A) (l : list A) :
  omap f (x :: l) = match f x with Some y => [y] | None => [] end ++ omap f l.
Proof. simpl. by destruct (f x). Qed.

Lemma due_snoc_poll rs l conn jobId d :
  due (mkState rs (l ++ [mkTimer d (CheckStatus conn jobId)])) = due (mkState rs l).
Proof. unfold due. simpl. rewrite omap_app. simpl. apply app_nil_r. Qed.

Lemma checkStatus_due conn jobId st :
  due (fst (checkStatus conn jobId st)) = due st.
Proof.
  rewrite checkStatus_unfold. destruct (reports st !! jobId) as [r|]; [| done].
  destruct (is_terminal (status r)); [done |]. apply due_snoc_poll.
Qed.

Lemma step_effect_of st e :
  step_effect st (fst (step st e)) (uuids [e]) (omap answered [e]).
Proof.
  destruct e as [nm uuid now | c j now | j now | i]; simpl step.
  - destruct (name_cases nm)
      as [[-> | (v & -> & Hv)] | [(s & -> & Hs) | (v & -> & Hv & Hns)]].
    + by apply eff_read.
    + rewrite generate_report_invalid by eauto.
      replace (uuids [GenerateReq (Some v) uuid now]) with (@nil string)
        by (unfold uuids; simpl; by rewrite Hv).
      replace (omap answered [GenerateReq (Some v) uuid now]) with (@nil string)
        by (destruct v as [[|a s] | | | |]; done).
      by apply eff_read.
    + rewrite generate_report_valid by done.
      replace (uuids [GenerateReq (Some (Js.JString s)) uuid now]) with [uuid]
        by (unfold uuids; simpl; by destruct s).
      replace (omap answered [GenerateReq (Some (Js.JString s)) uuid now])
        with [uuid] by (simpl; by destruct s).
      apply (eff_create _ _ s uuid now); [done | done |].
      unfold due. simpl. rewrite omap_app. reflexivity.
    + rewrite generate_report_stuck by done.
      replace (uuids [GenerateReq (Some v) uuid now]) with [uuid]
        by (unfold uuids; simpl; by rewrite Hv).
      replace (omap answered [GenerateReq (Some v) uuid now]) with (@nil string)
        by (destruct v as [s | | | |]; try done; by destruct (Hns s)).
      by apply (eff_stuck _ _ v uuid now).
  - apply eff_read.
    + destruct (reports st !! j) as [r|] eqn:Hr.
      * destruct (decide (expired r now)) as [Hexp|Hexp].
        -- rewrite (report_status_expired _ _ _ _ _ Hr Hexp). apply delete_subseteq.
        -- rewrite (report_status_live _ _ _ _ _ Hr Hexp). simpl.
           by rewrite checkStatus_reports.
      * unfold report_status. by rewrite Hr.
    + destruct (reports st !! j) as [r|] eqn:Hr.
      * destruct (decide (expired r now)) as [Hexp|Hexp].
        -- by rewrite (report_status_expired _ _ _ _ _ Hr Hexp).
        -- rewrite (report_status_live _ _ _ _ _ Hr Hexp). simpl.
           apply checkStatus_due.
      * unfold report_status. by rewrite Hr.
  - apply eff_read.
    + destruct (reports st !! j) as [r|] eqn:Hr.
      * rewrite (download_report_unfold _ _ _ _ Hr).
        destruct (ready r); simpl negb; cbv iota; [| done].
        destruct (_ <? _); [apply delete_subseteq | done].
      * unfold download_report. by rewrite Hr.
    + destruct (reports st !! j) as [r|] eqn:Hr.
      * rewrite (download_report_unfold _ _ _ _ Hr).
        destruct (ready r); simpl negb; cbv iota; [| done].
        by destruct (_ <? _).
      * unfold download_report. by rewrite Hr.
  - unfold fire. destruct (timers st !! i) as [[d cb]|] eqn:Ht; [| by apply eff_read].
    destruct cb as [j nm now | c j]; simpl run_callback.
    + destruct (omap_delete_Some due_of _ _ _ (mkDue j nm now) Ht eq_refl)
        as (l1 & l2 & H1 & H2).
      by apply (eff_complete _ _ j nm now l1 l2).
    + set (st0 := mkState (reports st) (delete i (timers st))).
      destruct (checkStatus c j st0) as [st' acts] eqn:Hcs.
      pose proof (checkStatus_reports c j st0) as Hrep.
      pose proof (checkStatus_due c j st0) as Hdue.
      rewrite Hcs in Hrep, Hdue. simpl in Hrep, Hdue |- *.
      apply eff_read; [by rewrite Hrep |].
      rewrite Hdue. unfold due, st0. simpl.
      by apply (omap_delete_None due_of _ _ _ Ht).
Qed.

Lemma uuids_snoc es e : uuids (es ++ [e]) = uuids es ++ uuids [e].
Proof. unfold uuids. apply omap_app. Qed.

(** *** Every record is a pending or a completed one *)

Lemma shape_inv_step st st' ids rets :
  step_effect st st' ids rets -> shape_inv st -> shape_inv st'.
Proof.
  intros Heff Hinv j r Hr.
  destruct Heff as [Hsub _ | nm uuid now _ Hrep _ | v uuid now _ _ Hrep _
                   | j' nm now l1 l2 _ _ Hrep].
  - eapply Hinv, lookup_weaken; eauto.
  - rewrite Hrep in Hr. apply lookup_insert_Some in Hr as [[<- <-] | [_ Hr]]; [| by eapply Hinv].
    by left.
  - rewrite Hrep in Hr. apply lookup_insert_Some in Hr as [[<- <-] | [_ Hr]]; [| by eapply Hinv].
    by left.
  - rewrite Hrep in Hr. apply lookup_insert_Some in Hr as [[<- <-] | [_ Hr]]; [| by eapply Hinv].
    right. by exists nm.
Qed.

Lemma shape_inv_run es : shape_inv (run init es).
Proof.
  induction es as [|e es IH] using rev_ind.
  - intros j r Hr. simpl in Hr. by rewrite lookup_empty in Hr.
  - rewrite run_snoc. eapply shape_inv_step; [apply step_effect_of | exact IH].
Qed.

Lemma record_shape_payload j r : record_shape j r -> payload_matches r.
Proof.
  intros [-> | [nm ->]]; unfold payload_matches; simpl; split; split;
    try discriminate; try done; intros H; by inversion H.
Qed.

(** *** The store and the ids drawn *)

Lemma store_inv_step st st' ids new ret :
  step_effect st st' new ret -> (forall u, u ∈ new -> u ∉ ids) ->
  store_inv ids st -> store_inv (ids ++ new) st'.
Proof.
  intros Heff Hfresh [Hknown Hdk Honce Hpend].
  destruct Heff as [Hsub Hdue | nm uuid now _ Hrep Hdue | v uuid now _ _ Hrep Hdue
                   | j nm now l1 l2 Hdue Hdue' Hrep].
  - rewrite app_nil_r. split.
    + intros j r Hr. eapply Hknown, lookup_weaken; eauto.
    + intros d. rewrite Hdue. apply Hdk.
    + by rewrite Hdue.
    + intros d r. rewrite Hdue. intros Hd Hr.
      eapply Hpend; [done |]. eapply lookup_weaken; eauto.
  - assert (Hu : uuid ∉ ids) by (apply Hfresh; by apply list_elem_of_singleton).
    split.
    + intros j r. rewrite Hrep. intros [[<- _] | [_ Hr]]%lookup_insert_Some.
      * apply elem_of_app. right. by apply list_elem_of_singleton.
      * apply elem_of_app. left. eauto.
    + intros d Hd. rewrite Hdue in Hd. apply elem_of_app in Hd as [Hd | Hd].
      * apply elem_of_app. left. eauto.
      * apply list_elem_of_singleton in Hd. subst d.
        apply elem_of_app. right. by apply list_elem_of_singleton.
    + rewrite Hdue, fmap_app. apply NoDup_app. split; [done |]. split.
      * intros j Hj Hj'. apply list_elem_of_fmap in Hj as (d & -> & Hd).
        apply list_elem_of_singleton in Hj'. simpl in Hj'.
        apply Hu. rewrite <- Hj'. by apply Hdk.
      * apply NoDup_singleton.
    + intros d r Hd Hr. rewrite Hdue in Hd. rewrite Hrep in Hr.
      apply elem_of_app in Hd as [Hd | Hd].
      * apply lookup_insert_Some in Hr as [[Heq _] | [_ Hr]]; [| eauto].
        exfalso. apply Hu. rewrite Heq. eauto.
      * apply list_elem_of_singleton in Hd. subst d. simpl in *.
        rewrite lookup_insert_eq in Hr. by injection Hr as <-.
  - assert (Hu : uuid ∉ ids) by (apply Hfresh; by apply list_elem_of_singleton).
    split.
    + intros j r. rewrite Hrep. intros [[<- _] | [_ Hr]]%lookup_insert_Some.
      * apply elem_of_app. right. by apply list_elem_of_singleton.
      * apply elem_of_app. left. eauto.
    + intros d. rewrite Hdue. intros Hd. apply elem_of_app. left. eauto.
    + by rewrite Hdue.
    + intros d r. rewrite Hdue, Hrep. intros Hd Hr.
      apply lookup_insert_Some in Hr as [[Heq _] | [_ Hr]]; [| eauto].
      exfalso. apply Hu. rewrite Heq. eauto.
  - rewrite app_nil_r.
    assert (Hj : mkDue j nm now ∈ due st).
    { rewrite Hdue. apply elem_of_app. right. by left. }
    assert (Hsub : forall d, d ∈ due st' -> d ∈ due st).
    { intros d. rewrite Hdue, Hdue', !elem_of_app, elem_of_cons. tauto. }
    assert (Hother : forall d, d ∈ due st' -> due_job d <> j).
    { intros d Hd Heq. rewrite Hdue, fmap_app, fmap_cons in Honce.
      apply NoDup_app in Honce as (_ & Hdisj & [Hnot _]%NoDup_cons).
      rewrite Hdue' in Hd. apply elem_of_app in Hd as [Hd | Hd].
      - apply (Hdisj j); [| by left].
        apply list_elem_of_fmap. by exists d.
      - apply Hnot. apply list_elem_of_fmap. by exists d. }
    split.
    + intros j' r. rewrite Hrep. intros [[<- _] | [_ Hr]]%lookup_insert_Some; [| eauto].
      by apply (Hdk _ Hj).
    + eauto.
    + rewrite Hdue'. rewrite Hdue, fmap_app, fmap_cons in Honce. rewrite fmap_app.
      apply NoDup_app in Honce as (H1 & Hdisj & [_ H2]%NoDup_cons).
      apply NoDup_app. split; [done |]. split; [| done].
      intros x Hx Hx'. apply (Hdisj x Hx). by right.
    + intros d r Hd. rewrite Hrep, lookup_insert_ne by (symmetry; by apply Hother).
      eauto.
Qed.

Lemma store_inv_run es :
  NoDup (uuids es) -> store_inv (uuids es) (run init es).
Proof.
  induction es as [|e es IH] using rev_ind; intros Hnd.
  - split; simpl.
    + intros j r Hr. by rewrite lookup_empty in Hr.
    + intros d Hd. by apply not_elem_of_nil in Hd.
    + apply NoDup_nil_2.
    + intros d r Hd. by apply not_elem_of_nil in Hd.
  - rewrite uuids_snoc in Hnd |- *. apply NoDup_app in Hnd as (Hnd & Hdisj & _).
    rewrite run_snoc. eapply store_inv_step; [apply step_effect_of | | by apply IH].
    intros u Hu Hin. by apply (Hdisj u Hin).
Qed.

(** *** A job seen twice *)

Lemma follows_init ids st j r :
  store_inv ids st -> reports st !! j = Some r -> follows j r st.
Proof.
  intros [_ _ _ Hpend] Hr. split.
  - intros r' Hr'. left. congruence.
  - intros d Hd Hj. apply (Hpend d r Hd). by rewrite Hj.
Qed.

Lemma follows_step st st' new ret j r :
  step_effect st st' new ret -> (forall u, u ∈ new -> u <> j) ->
  follows j r st -> follows j r st'.
Proof.
  intros Heff Hfresh [Hrec Hdue].
  destruct Heff as [Hsub Hd | nm uuid now _ Hrep Hd | v uuid now _ _ Hrep Hd
                   | j' nm now l1 l2 Hd Hd' Hrep].
  - split.
    + intros r' Hr'. eapply Hrec, lookup_weaken; eauto.
    + intros d. rewrite Hd. apply Hdue.
  - assert (Hu : uuid <> j) by (apply Hfresh; by apply list_elem_of_singleton).
    split.
    + intros r'. rewrite Hrep, lookup_insert_ne by done. apply Hrec.
    + intros d Hin Hj. rewrite Hd in Hin. apply elem_of_app in Hin as [Hin | Hin].
      * by apply Hdue.
      * apply list_elem_of_singleton in Hin. subst d. simpl in Hj. congruence.
  - assert (Hu : uuid <> j) by (apply Hfresh; by apply list_elem_of_singleton).
    split.
    + intros r'. rewrite Hrep, lookup_insert_ne by done. apply Hrec.
    + intros d. rewrite Hd. apply Hdue.
  - assert (Hsub : forall d, d ∈ due st' -> d ∈ due st).
    { intros d. rewrite Hd, Hd', !elem_of_app, elem_of_cons. tauto. }
    split; [| by eauto].
    intros r'. rewrite Hrep. destruct (decide (j' = j)) as [-> | Hne].
    + rewrite lookup_insert_eq. intros [= <-].
      assert (Hr : r = pending_record nm now).
      { apply (Hdue (mkDue j nm now)); [| done].
        rewrite Hd. apply elem_of_app. right. by left. }
      subst r. right. by exists nm.
    + rewrite lookup_insert_ne by done. apply Hrec.
Qed.

Lemma follows_run es1 es2 j r :
  NoDup (uuids (es1 ++ es2)) -> reports (run init es1) !! j = Some r ->
  follows j r (run init (es1 ++ es2)).
Proof.
  intros Hnd Hr. induction es2 as [|e es2 IH] using rev_ind.
  - rewrite app_nil_r in Hnd |- *. eapply follows_init; [by apply store_inv_run | done].
  - rewrite app_assoc in Hnd |- *. rewrite uuids_snoc in Hnd.
    apply NoDup_app in Hnd as (Hnd & Hdisj & _).
    rewrite run_snoc. eapply follows_step; [apply step_effect_of | | by apply IH].
    intros u Hu ->. apply (Hdisj j); [| done].
    unfold uuids. rewrite omap_app. apply elem_of_app. left.
    assert (Hnd1 : NoDup (uuids es1)).
    { unfold uuids in Hnd. rewrite omap_app in Hnd. by apply NoDup_app in Hnd as (? & _). }
    by apply (inv_known _ _ (store_inv_run es1 Hnd1) j r).
Qed.

(** C1. Over any run in which [uuidv4()] never repeats, a job seen with the
    record [r] and later with the record [r'] has kept its name and its
    creation time; [r'] is [r] itself, or [r] was pending and [r'] is
    completed; once [r] is completed or failed, [r'] is [r]; and in both
    records the file path is set exactly when the status is completed and
    the error exactly when it is failed.  The id is the key of the record in
    the store. *)
Theorem job_record_lifecycle (es1 es2 : list Event) (jobId : string)
    (r r' : ReportData) :
  NoDup (uuids (es1 ++ es2)) ->
  reports (run init es1) !! jobId = Some r ->
  reports (run init (es1 ++ es2)) !! jobId = Some r' ->
  name r' = name r /\ createdAt r' = createdAt r
  /\ (r' = r \/ (status r = pending /\ status r' = completed))
  /\ (is_terminal (status r) = true -> r' = r)
  /\ payload_matches r /\ payload_matches r'.
Proof.
  intros Hnd Hr Hr'.
  destruct (follows_run es1 es2 jobId r Hnd Hr) as [Hev _].
  pose proof (record_shape_payload _ _ (shape_inv_run es1 _ _ Hr)) as Hp.
  pose proof (record_shape_payload _ _ (shape_inv_run (es1 ++ es2) _ _ Hr')) as Hp'.
  destruct (Hev r' Hr') as [-> | (nm & Hpend & ->)].
  - split; [| split; [| split; [| split; [| split]]]]; auto.
  - split; [| split; [| split; [| split; [| split]]]]; auto.
    + by rewrite Hpend.
    + right. by rewrite Hpend.
    + rewrite Hpend. discriminate.
Qed.

Lemma job_record_lifecycle_witness :
  name (completed_record "job-1" "Sales Report" 0) = "Sales Report"
  /\ payload_matches (completed_record "job-1" "Sales Report" 0).
Proof.
  assert (Hnd : NoDup (uuids ([GenerateReq (Some "Sales Report") "job-1" 0]
                                ++ [StatusReq 0 "job-1" 5; TimerFire 0]))).
  { vm_compute. repeat constructor. intros H. inversion H. }
  destruct (job_record_lifecycle
              [GenerateReq (Some "Sales Report") "job-1" 0]
              [StatusReq 0 "job-1" 5; TimerFire 0] "job-1"
              (pending_record "Sales Report" 0)
              (completed_record "job-1" "Sales Report" 0)
              Hnd eq_refl eq_refl) as (Hn & _ & _ & _ & _ & Hp).
  split; [exact Hn | exact Hp].
Defined.

(** *** The generation endpoint *)

Lemma step_json_jobId st e :
  json_jobId (acts_of (snd (step st e))) = answered e.
Proof.
  destruct e as [nm uuid now | c j now | j now | i]; simpl step; simpl answered.
  - destruct (name_cases nm)
      as [[-> | (v & -> & Hv)] | [(s & -> & Hs) | (v & -> & Hv & Hns)]].
    + done.
    + rewrite generate_report_invalid by eauto.
      destruct v as [[|a s] | | | |]; done.
    + rewrite generate_report_valid by done. by destruct s.
    + rewrite generate_report_stuck by done.
      destruct v as [s | | | |]; try done. by destruct (Hns s).
  - unfold report_status. destruct (reports st !! j) as [r|] eqn:Hr; [| done].
    destruct (_ <? _); [done |]. rewrite checkStatus_unfold, Hr.
    by destruct (is_terminal (status r)).
  - destruct (reports st !! j) as [r|] eqn:Hr.
    + rewrite (download_report_unfold _ _ _ _ Hr).
      destruct (ready r); simpl negb; cbv iota; [| done].
      destruct (_ <? _); [done |]. apply file_reply_json_jobId.
    + unfold download_report. by rewrite Hr.
  - unfold fire. destruct (timers st !! i) as [[d [j nm now | c j]]|]; try done.
    simpl run_callback. rewrite checkStatus_unfold.
    destruct (reports _ !! j) as [r|]; [| done].
    by destruct (is_terminal (status r)).
Qed.

Lemma returned_ids_answered st es :
  returned_ids (outputs st es) = omap answered es.
Proof.
  revert st. induction es as [|e es IH]; intros st; [done |].
  unfold returned_ids in *. simpl outputs.
  rewrite !omap_cons_eq. cbv beta. by rewrite step_json_jobId, IH.
Qed.



Lemma known_inv_step st st' ids rets new ret :
  step_effect st st' new ret ->
  known_inv ids rets st -> known_inv (ids ++ new) (rets ++ ret) st'.
Proof.
  intros Heff [Hrec Hdue].
  destruct Heff as [Hsub Hd | nm uuid now Hnm Hrep Hd | v uuid now Hv Hns Hrep Hd
                   | j nm now l1 l2 Hd Hd' Hrep].
  - rewrite !app_nil_r. split.
    + intros j r Hr. eapply Hrec, lookup_weaken; eauto.
    + intros d. rewrite Hd. apply Hdue.
  - split.
    + intros j r. rewrite Hrep. intros [[<- <-] | [_ Hr]]%lookup_insert_Some.
      * split; [apply elem_of_app; right; by left |].
        split; [by destruct nm |]. intros _. apply elem_of_app. right. by left.
      * destruct (Hrec j r Hr) as (H1 & H2 & H3).
        split; [apply elem_of_app; by left |]. split; [done |].
        intros Hs. apply elem_of_app. left. by apply H3.
    + intros d Hin. rewrite Hd in Hin. apply elem_of_app in Hin as [Hin | Hin].
      * destruct (Hdue d Hin) as (H1 & H2 & H3).
        repeat split; [apply elem_of_app; by left | apply elem_of_app; by left | done].
      * apply list_elem_of_singleton in Hin. subst d. simpl.
        repeat split; [apply elem_of_app; right; by left
                      | apply elem_of_app; right; by left | done].
  - rewrite app_nil_r. split.
    + intros j r. rewrite Hrep. intros [[<- <-] | [_ Hr]]%lookup_insert_Some.
      * split; [apply elem_of_app; right; by left |]. split; [done |].
        intros [nm Hnm]. by destruct (Hns nm).
      * destruct (Hrec j r Hr) as (H1 & H2 & H3).
        split; [apply elem_of_app; by left | done].
    + intros d. rewrite Hd. intros Hin. destruct (Hdue d Hin) as (H1 & H2 & H3).
      split; [apply elem_of_app; by left | done].
  - rewrite !app_nil_r.
    assert (Hj : mkDue j nm now ∈ due st).
    { rewrite Hd. apply elem_of_app. right. by left. }
    destruct (Hdue _ Hj) as (Hj1 & Hj2 & Hj3). simpl in Hj1, Hj2, Hj3.
    split.
    + intros j' r. rewrite Hrep. intros [[<- <-] | [_ Hr]]%lookup_insert_Some.
      * split; [done |]. split; [by destruct nm | done].
      * by apply Hrec.
    + intros d Hin. apply Hdue. rewrite Hd. rewrite Hd' in Hin.
      apply elem_of_app in Hin as [Hin | Hin]; apply elem_of_app; [by left |].
      right. by right.
Qed.

Lemma known_inv_run es :
  known_inv (uuids es) (returned_ids (outputs init es)) (run init es).
Proof.
  rewrite returned_ids_answered.
  induction es as [|e es IH] using rev_ind.
  - split.
    + intros j r Hr. simpl in Hr. by rewrite lookup_empty in Hr.
    + intros d Hd. by apply not_elem_of_nil in Hd.
  - rewrite run_snoc, uuids_snoc, omap_app.
    eapply known_inv_step; [apply step_effect_of | exact IH].
Qed.




(** *** No job fails *)

(** C7. The [try] block of the deferred transition never throws: the
    callback always writes the completed record with the synthesised file
    path, so the [catch] branch, which alone writes [failed], never runs;
    every accepted request schedules that callback, and firing it leaves the
    job completed; and over any run no record of the store is failed. *)
Theorem failure_branch_unreachable :
  (forall jobId nm now st,
     complete_try jobId nm now st
     = Exc.Ok (set_report jobId (completed_record jobId nm now) st)
     /\ complete_callback jobId nm now st
        = set_report jobId (completed_record jobId nm now) st)
  /\ (forall nm uuid now st, nm <> "" ->
        let st1 := fst (generate_report (Some nm) uuid now st) in
        timers st1 !! length (timers st)
        = Some (mkTimer (generation_delay nm) (Complete uuid nm now))
        /\ reports (fst (fire (length (timers st)) st1)) !! uuid
           = Some (completed_record uuid nm now))
  /\ (forall es (j : string) r,
        reports (run init es) !! j = Some r ->
        status r <> failed /\ error r = None).
Proof.
  split; [| split].
  - intros. split; reflexivity.
  - intros nm uuid now st Hnm. cbv zeta. rewrite generate_report_valid by done.
    cbn [fst]. split.
    + simpl. apply list_lookup_middle. reflexivity.
    + pose proof (fire_last (mkState (<[uuid := mkReport pending nm now None None]>
                                        (reports st)) (timers st))
                            (mkTimer (generation_delay nm) (Complete uuid nm now)))
        as Hfire.
      cbn [reports timers] in Hfire. rewrite Hfire.
      simpl. apply lookup_insert_eq.
  - intros es j r Hr. destruct (shape_inv_run es j r Hr) as [-> | [nm ->]]; by split.
Qed.

Lemma failure_branch_unreachable_witness :
  reports (fst (fire 0 (fst (generate_report (Some "Sales Report") "job-1" 0 init))))
    !! "job-1" = Some (completed_record "job-1" "Sales Report" 0)
  /\ status (completed_record "job-1" "Sales Report" 0) <> failed.
Proof.
  destruct failure_branch_unreachable as (_ & Hgen & Hrun).
  split.
  - apply (Hgen "Sales Report" "job-1" 0 init). discriminate.
  - apply (Hrun [GenerateReq (Some "Sales Report") "job-1" 0; TimerFire 0] "job-1").
    reflexivity.
Defined.

End ServerProofs.

(** ** Proofs about the client hook *)
Module ClientProofs.
Import Client ClientProps.

(** *** Reload *)

Lemma filter_on_load_const expiry now k parsedJobs :
  filter_on_load expiry (fun _ => now) k parsedJobs
  = filter (rehydrated expiry now) parsedJobs.
Proof.
  revert k. induction parsedJobs as [|job rest IH]; intros k; [done |].
  simpl filter_on_load. rewrite filter_cons, !IH.
  destruct (decide (rehydrated expiry now job)) as [[Hc Hage] | Hn].
  - rewrite bool_decide_eq_false_2 by done. simpl.
    apply Z.ltb_lt in Hage. by rewrite Hage.
  - destruct (decide (status (job_status job) = completed)) as [Hc | Hc].
    + by rewrite bool_decide_eq_true_2 by done.
    + rewrite bool_decide_eq_false_2 by done. simpl.
      destruct (now - createdAt job <? expiry) eqn:Hage; [| done].
      apply Z.ltb_lt in Hage. exfalso. apply Hn. by split.
Qed.

Lemma filter_on_load_sound expiry clock k parsedJobs job :
  job ∈ filter_on_load expiry clock k parsedJobs ->
  job ∈ parsedJobs /\ status (job_status job) <> completed
  /\ exists n, clock n - createdAt job < expiry.
Proof.
  revert k. induction parsedJobs as [|j rest IH]; intros k; simpl.
  - intros H. by apply not_elem_of_nil in H.
  - destruct (decide (status (job_status j) = completed)) as [Hc | Hc].
    + rewrite bool_decide_eq_true_2 by done. simpl. intros H.
      destruct (IH _ H) as (? & ? & ?). split; [by right | done].
    + rewrite bool_decide_eq_false_2 by done. simpl.
      destruct (clock k - createdAt j <? expiry) eqn:Hage.
      * apply Z.ltb_lt in Hage. intros [-> | H]%elem_of_cons.
        -- split; [by left |]. split; [done | by exists k].
        -- destruct (IH _ H) as (? & ? & ?). split; [by right | done].
      * intros H. destruct (IH _ H) as (? & ? & ?). split; [by right | done].
Qed.

Lemma initial_jobs_unfold localStorage storageConfig clock :
  initial_jobs localStorage storageConfig clock
  = filter_on_load (expiryTime_of storageConfig) clock 0
      (stored_jobs localStorage storageConfig).
Proof.
  unfold initial_jobs, stored_jobs.
  by destruct (localStorage !! storageKey_of storageConfig).
Qed.

(** C8. On reload, with [Date.now()] reading [now], the job list is the
    stored list, in its order, restricted to the jobs that are not
    completed and whose age [now - createdAt] is strictly below the expiry
    window; so a failed job within the window is kept, a completed or an
    expired job is dropped, and a key never written gives no job.  The
    window is 30 minutes unless configured.  Whatever [Date.now()] reads,
    a job that is kept is stored, not completed, and within the window at
    one of the readings. *)
Theorem rehydrated_jobs (localStorage : gmap string (list ReportJob))
    (storageConfig : option StorageConfig) (now : Z) :
  let expiry := expiryTime_of storageConfig in
  let stored := stored_jobs localStorage storageConfig in
  let jobs := initial_jobs localStorage storageConfig (fun _ => now) in
  jobs = filter (rehydrated expiry now) stored
  /\ (forall job, job ∈ jobs <->
        job ∈ stored /\ status (job_status job) <> completed
        /\ now - createdAt job < expiry)
  /\ (forall job, job ∈ stored -> status (job_status job) = failed ->
        now - createdAt job < expiry -> job ∈ jobs)
  /\ (forall job, status (job_status job) = completed
                  \/ expiry <= now - createdAt job -> job ∉ jobs)
  /\ (storageConfig = None -> expiry = 30 * 60 * 1000)
  /\ (forall clock job,
        job ∈ initial_jobs localStorage storageConfig clock ->
        job ∈ stored /\ status (job_status job) <> completed
        /\ exists n, clock n - createdAt job < expiry).
Proof.
  cbv zeta. rewrite initial_jobs_unfold, filter_on_load_const.
  assert (Hin : forall job,
    job ∈ filter (rehydrated (expiryTime_of storageConfig) now)
                 (stored_jobs localStorage storageConfig)
    <-> job ∈ stored_jobs localStorage storageConfig
        /\ status (job_status job) <> completed
        /\ now - createdAt job < expiryTime_of storageConfig).
  { intros job. rewrite list_elem_of_filter. unfold rehydrated. tauto. }
  split; [done |]. split; [exact Hin |]. split; [| split; [| split]].
  - intros job Hs Hf Hage. apply Hin. split; [done |]. split; [| done].
    rewrite Hf. discriminate.
  - intros job Hbad (_ & Hc & Hage)%Hin. destruct Hbad; [done | lia].
  - intros ->. reflexivity.
  - intros clock job. rewrite initial_jobs_unfold. apply filter_on_load_sound.
Qed.

Lemma rehydrated_jobs_witness :
  initial_jobs sample_storage None (fun _ => 1800500) = [failed_job]
  /\ (failed_job ∈ initial_jobs sample_storage None (fun _ => 1800500))
  /\ (finished_job ∉ initial_jobs sample_storage None (fun _ => 1800500))
  /\ (sample_job ∉ initial_jobs sample_storage None (fun _ => 1800500)).
Proof.
  destruct (rehydrated_jobs sample_storage None 1800500)
    as (Heq & _ & Hfailed & Hdrop & _).
  split; [| split; [| split]].
  - rewrite Heq. reflexivity.
  - apply Hfailed.
    + vm_compute. right. left.
    + reflexivity.
    + vm_compute. reflexivity.
  - apply Hdrop. left. reflexivity.
  - apply Hdrop. right. vm_compute. discriminate.
Defined.

(** *** One download per job *)

Lemma nav_count_app effs1 effs2 :
  nav_count (effs1 ++ effs2) = (nav_count effs1 + nav_count effs2)%nat.
Proof. unfold nav_count. by rewrite filter_app, length_app. Qed.

Lemma awaiting_cons jobId j jobs :
  awaiting jobId (j :: jobs)
  = ((if bool_decide (id j = jobId) && not_downloaded j then 1 else 0)
     + awaiting jobId jobs)%nat.
Proof.
  unfold awaiting. rewrite filter_cons.
  destruct (decide (id j = jobId /\ not_downloaded j = true)) as [[-> ->] | Hn].
  - by rewrite bool_decide_eq_true_2.
  - destruct (decide (id j = jobId)) as [Hid | Hid].
    + rewrite bool_decide_eq_true_2 by done.
      destruct (not_downloaded j); [exfalso; by apply Hn | done].
    + by rewrite bool_decide_eq_false_2 by done.
Qed.

Lemma navigations_tagged jobId j effs :
  navigations jobId (map (pair j) effs)
  = if bool_decide (j = jobId) then nav_count effs else 0%nat.
Proof.
  unfold navigations, nav_count. induction effs as [|e effs IH]; simpl.
  - by destruct (bool_decide _).
  - rewrite !filter_cons. simpl.
    destruct (decide (j = jobId)) as [-> | Hne].
    + rewrite bool_decide_eq_true_2 in IH |- * by done.
      destruct (is_navigation e) eqn:He.
      * rewrite !decide_True by done. simpl. by rewrite IH.
      * rewrite decide_False by (intros [_ H]; discriminate).
        rewrite decide_False by discriminate. done.
    + rewrite bool_decide_eq_false_2 in IH |- * by done.
      rewrite decide_False by (by intros [? _]). done.
Qed.

Lemma navigations_app jobId log1 log2 :
  navigations jobId (log1 ++ log2)
  = (navigations jobId log1 + navigations jobId log2)%nat.
Proof. unfold navigations. by rewrite filter_app, length_app. Qed.

(** What the matching branch does to one job. *)
Lemma update_job_cases rev apiConfig jobId data now j :
  (status data = completed /\ not_downloaded j = true
   /\ update_job rev apiConfig jobId data now j
      = (downloaded_job data now j,
         [Navigate (download_url rev apiConfig jobId);
          JobCompleted (downloaded_job data now j)]))
  \/ ((status data <> completed \/ not_downloaded j = false)
      /\ id (fst (update_job rev apiConfig jobId data now j)) = id j
      /\ downloaded (fst (update_job rev apiConfig jobId data now j)) = downloaded j
      /\ nav_count (snd (update_job rev apiConfig jobId data now j)) = 0%nat).
Proof.
  unfold update_job.
  destruct (decide (status data = completed)) as [Hc | Hc].
  - rewrite (bool_decide_eq_true_2 _ Hc). destruct (not_downloaded j) eqn:Hd; simpl.
    + left. auto.
    + right. rewrite Hc. simpl. auto.
  - rewrite (bool_decide_eq_false_2 _ Hc). simpl. right.
    destruct (bool_decide (status data = failed)); simpl; auto.
Qed.

Lemma not_downloaded_same j j' :
  downloaded j' = downloaded j -> not_downloaded j' = not_downloaded j.
Proof. unfold not_downloaded. by intros ->. Qed.

Lemma map_jobs_count rev apiConfig jobId data clock k prev :
  (nav_count (snd (map_jobs rev apiConfig jobId data clock k prev))
   + awaiting jobId (fst (map_jobs rev apiConfig jobId data clock k prev))
   = awaiting jobId prev)%nat
  /\ (forall other, other <> jobId ->
        awaiting other (fst (map_jobs rev apiConfig jobId data clock k prev))
        = awaiting other prev)
  /\ id <$> fst (map_jobs rev apiConfig jobId data clock k prev) = id <$> prev.
Proof.
  revert k. induction prev as [|j rest IH]; intros k; [done |].
  simpl map_jobs. destruct (decide (id j = jobId)) as [Hid | Hid].
  - rewrite (bool_decide_eq_true_2 _ Hid).
    destruct (IH (S k)) as (Hcount & Hother & Hids).
    destruct (map_jobs rev apiConfig jobId data clock (S k) rest) as [rest' effs].
    destruct (update_job rev apiConfig jobId data (clock k) j) as [j' eff] eqn:Hupd.
    pose proof (update_job_cases rev apiConfig jobId data (clock k) j) as Hcases.
    rewrite Hupd in Hcases. cbn [fst snd] in *.
    assert (Hid' : id j' = id j).
    { destruct Hcases as [(_ & _ & [= -> _]) | (_ & H & _)]; done. }
    split; [| split].
    + rewrite nav_count_app, !awaiting_cons, Hid', (bool_decide_eq_true_2 _ Hid).
      destruct Hcases as [(_ & Hnd & [= -> ->]) | (_ & _ & Hd & Hnav)].
      * rewrite Hnd. simpl. unfold nav_count in *. simpl. lia.
      * rewrite (not_downloaded_same _ _ Hd), Hnav. simpl. lia.
    + intros other Hne. rewrite !awaiting_cons, Hid'.
      rewrite bool_decide_eq_false_2 by congruence. simpl.
      by rewrite Hother.
    + rewrite !fmap_cons, Hid', Hids. done.
  - rewrite (bool_decide_eq_false_2 _ Hid).
    destruct (IH k) as (Hcount & Hother & Hids).
    destruct (map_jobs rev apiConfig jobId data clock k rest) as [rest' effs].
    cbn [fst snd] in *. split; [| split].
    + rewrite !awaiting_cons. rewrite bool_decide_eq_false_2 by done. simpl. lia.
    + intros other Hne. rewrite !awaiting_cons. by rewrite Hother.
    + by rewrite !fmap_cons, Hids.
Qed.

Lemma onmessage_count rev apiConfig jobId data clock prev who :
  (navigations who
     (map (pair jobId) (snd (onmessage rev apiConfig jobId data clock prev)))
   + awaiting who (fst (onmessage rev apiConfig jobId data clock prev))
   = awaiting who prev)%nat
  /\ id <$> fst (onmessage rev apiConfig jobId data clock prev) = id <$> prev.
Proof.
  unfold onmessage.
  destruct (map_jobs_count rev apiConfig jobId data clock 0 prev)
    as (Hcount & Hother & Hids).
  destruct (map_jobs rev apiConfig jobId data clock 0 prev) as [jobs effs].
  cbn [fst snd] in *. split; [| done].
  rewrite navigations_tagged, nav_count_app.
  assert (Hclose : nav_count (if bool_decide (status data = completed)
                                 || bool_decide (status data = failed)
                              then [CloseSource jobId] else []) = 0%nat).
  { by destruct (_ || _). }
  rewrite Hclose. destruct (decide (jobId = who)) as [<- | Hne].
  - rewrite bool_decide_eq_true_2 by done. lia.
  - rewrite bool_decide_eq_false_2 by done. rewrite Hother by done. lia.
Qed.

Lemma deliver_count rev apiConfig msgs jobs who :
  (navigations who (snd (deliver rev apiConfig msgs jobs))
   + awaiting who (fst (deliver rev apiConfig msgs jobs))
   = awaiting who jobs)%nat.
Proof.
  revert jobs. induction msgs as [|m msgs IH]; intros jobs; [done |].
  simpl deliver.
  destruct (onmessage_count rev apiConfig (msg_job m) (msg_data m) (msg_clock m)
              jobs who) as [Hm _].
  destruct (onmessage rev apiConfig (msg_job m) (msg_data m) (msg_clock m) jobs)
    as [jobs1 effs].
  specialize (IH jobs1).
  destruct (deliver rev apiConfig msgs jobs1) as [jobs2 later].
  cbn [fst snd] in *. rewrite navigations_app. lia.
Qed.

Lemma awaiting_absent jobId jobs :
  jobId ∉ id <$> jobs -> awaiting jobId jobs = 0%nat.
Proof.
  induction jobs as [|j jobs IH]; [done |].
  rewrite fmap_cons, awaiting_cons, not_elem_of_cons. intros [Hne Hnot].
  rewrite bool_decide_eq_false_2 by congruence. simpl. by apply IH.
Qed.

Lemma awaiting_NoDup jobId jobs :
  NoDup (id <$> jobs) -> (awaiting jobId jobs <= 1)%nat.
Proof.
  induction jobs as [|j jobs IH]; [intros _; unfold awaiting; simpl; lia |].
  rewrite fmap_cons, awaiting_cons. intros [Hnot Hnd]%NoDup_cons.
  specialize (IH Hnd). destruct (decide (id j = jobId)) as [Hid | Hid].
  - rewrite awaiting_absent by (by rewrite <- Hid).
    destruct (_ && _); simpl; lia.
  - rewrite bool_decide_eq_false_2 by done. simpl. lia.
Qed.

Lemma map_jobs_marks rev apiConfig jobId data clock k prev j :
  j ∈ prev -> id j = jobId -> status data = completed -> not_downloaded j = true ->
  (exists t, downloaded_job data t j
             ∈ fst (map_jobs rev apiConfig jobId data clock k prev))
  /\ Navigate (download_url rev apiConfig jobId)
     ∈ snd (map_jobs rev apiConfig jobId data clock k prev).
Proof.
  intros Hin Hid Hc Hnd. revert k.
  induction prev as [|j0 rest IH]; intros k; [by apply not_elem_of_nil in Hin |].
  simpl map_jobs. apply elem_of_cons in Hin as [<- | Hin].
  - rewrite (bool_decide_eq_true_2 _ Hid).
    destruct (update_job_cases rev apiConfig jobId data (clock k) j)
      as [(_ & _ & ->) | ([Hbad | Hbad] & _)]; [| done | congruence].
    destruct (map_jobs rev apiConfig jobId data clock (S k) rest) as [rest' effs].
    simpl. split; [exists (clock k) |]; by left.
  - destruct (bool_decide (id j0 = jobId)).
    + destruct (IH Hin (S k)) as [(t & Ht) Hnav].
      destruct (map_jobs rev apiConfig jobId data clock (S k) rest) as [rest' effs].
      destruct (update_job rev apiConfig jobId data (clock k) j0) as [j' eff].
      simpl in *. split; [exists t; by right |].
      apply elem_of_app. by right.
    + destruct (IH Hin k) as [(t & Ht) Hnav].
      destruct (map_jobs rev apiConfig jobId data clock k rest) as [rest' effs].
      simpl in *. split; [exists t; by right | done].
Qed.

(** C9. When a [completed] frame reaches the handler of a job whose
    [downloaded] flag is not set, the handler navigates to the download
    URL of that job and the job is kept with [downloaded: true], no job of
    that id being left to download.  Whatever frames are delivered, for
    whatever jobs and in whatever order, each navigation for a job takes
    one entry of that job out of those still to download: the navigations
    and the entries left add up to the entries there were.  So a job list
    with distinct ids navigates at most once for each job. *)
Theorem download_triggered_once (rev : Revision) (apiConfig : ApiConfig)
    (msgs : list Message) (jobs : list ReportJob) (jobId : string) :
  let log := snd (deliver rev apiConfig msgs jobs) in
  let jobs' := fst (deliver rev apiConfig msgs jobs) in
  (navigations jobId log + awaiting jobId jobs' = awaiting jobId jobs)%nat
  /\ (NoDup (id <$> jobs) -> (navigations jobId log <= 1)%nat)
  /\ (forall data clock j,
        j ∈ jobs -> id j = jobId -> status data = completed ->
        not_downloaded j = true ->
        let now_jobs := fst (onmessage rev apiConfig jobId data clock jobs) in
        let effs := snd (onmessage rev apiConfig jobId data clock jobs) in
        Navigate (download_url rev apiConfig jobId) ∈ effs
        /\ (exists t, downloaded_job data t j ∈ now_jobs)
        /\ awaiting jobId now_jobs = 0%nat
        /\ CloseSource jobId ∈ effs).
Proof.
  cbv zeta. split; [| split].
  - apply deliver_count.
  - intros Hnd. pose proof (deliver_count rev apiConfig msgs jobs jobId).
    pose proof (awaiting_NoDup jobId jobs Hnd). lia.
  - intros data clock j Hin Hid Hc Hnd.
    destruct (map_jobs_marks rev apiConfig jobId data clock 0 jobs j Hin Hid Hc Hnd)
      as [Hmark Hnav].
    destruct (map_jobs_count rev apiConfig jobId data clock 0 jobs) as (Hcount & _).
    assert (Hall : nav_count (snd (map_jobs rev apiConfig jobId data clock 0 jobs))
                   = awaiting jobId jobs).
    { clear Hmark Hnav Hcount Hin Hnd j Hid. generalize 0%nat.
      induction jobs as [|j rest IH]; intros k; [done |].
      simpl map_jobs. rewrite awaiting_cons.
      destruct (decide (id j = jobId)) as [Hid | Hid].
      - rewrite (bool_decide_eq_true_2 _ Hid). specialize (IH (S k)).
        destruct (map_jobs rev apiConfig jobId data clock (S k) rest) as [rest' effs].
        destruct (update_job_cases rev apiConfig jobId data (clock k) j)
          as [(_ & Hnd & ->) | ([Hbad | Hbad] & _ & _ & Hnav)]; [| done |].
        + cbn [snd] in *. rewrite Hnd, nav_count_app, IH. reflexivity.
        + destruct (update_job rev apiConfig jobId data (clock k) j) as [j' eff].
          cbn [snd] in *. rewrite Hbad, nav_count_app, Hnav, IH. reflexivity.
      - rewrite (bool_decide_eq_false_2 _ Hid). specialize (IH k).
        destruct (map_jobs rev apiConfig jobId data clock k rest) as [rest' effs].
        cbn [snd] in *. by rewrite IH. }
    unfold onmessage.
    destruct (map_jobs rev apiConfig jobId data clock 0 jobs) as [jobs1 effs].
    cbn [fst snd] in *. rewrite (bool_decide_eq_true_2 _ Hc). simpl.
    split; [apply elem_of_app; by left |]. split; [done |].
    split; [lia |]. apply elem_of_app. right. by left.
Qed.

Lemma download_triggered_once_witness :
  (navigations "job-1"
     (snd (deliver WithBaseUrl sample_api repeated_frames [sample_job; failed_job]))
   <= 1)%nat
  /\ (Navigate "http://localhost:3000/api/download-report/job-1"
      ∈ snd (onmessage WithBaseUrl sample_api "job-1" completed_frame
               (fun _ => 8000%Z) [sample_job; failed_job])).
Proof.
  destruct (download_triggered_once WithBaseUrl sample_api repeated_frames
              [sample_job; failed_job] "job-1") as (_ & Hone & Hfirst).
  split.
  - apply Hone. vm_compute. repeat constructor.
    + intros H. apply elem_of_cons in H as [H | H]; [discriminate | inversion H].
    + intros H. inversion H.
  - apply (Hfirst completed_frame (fun _ => 8000%Z) sample_job); try reflexivity.
    by left.
Defined.

End ClientProofs.

(** ** Further proofs about the server *)
Module ServerMore.
Import Server Http ServerProps ServerMoreProps ServerProofs.

(** *** Strings *)

Lemma lower_char_idem c : Js.lower_char (Js.lower_char c) = Js.lower_char c.
Proof. destruct c as [[] [] [] [] [] [] [] []]; reflexivity. Qed.

Lemma toLowerCase_idem s : Js.toLowerCase (Js.toLowerCase s) = Js.toLowerCase s.
Proof. induction s as [|c s IH]; simpl; [done |]. by rewrite lower_char_idem, IH. Qed.

Lemma toLowerCase_lower s : all_chars is_lower (Js.toLowerCase s) = true.
Proof.
  induction s as [|c s IH]; simpl; [done |]. rewrite IH, andb_true_r.
  unfold is_lower. apply bool_decide_eq_true. apply lower_char_idem.
Qed.

Lemma replace_spaces_from_no_space b s :
  all_chars not_space (Js.replace_spaces_from b s) = true.
Proof.
  revert b. induction s as [|c s IH]; intros b; simpl; [done |].
  destruct (Js.is_space c) eqn:Hc.
  - destruct b; simpl; rewrite ?IH; done.
  - simpl. rewrite IH. unfold not_space. by rewrite Hc.
Qed.

Lemma replace_spaces_from_lower b s :
  all_chars is_lower s = true ->
  all_chars is_lower (Js.replace_spaces_from b s) = true.
Proof.
  revert b. induction s as [|c s IH]; intros b; simpl; [done |].
  intros [Hc Hs]%andb_true_iff. destruct (Js.is_space c).
  - destruct b; simpl; rewrite ?IH; done.
  - simpl. by rewrite Hc, IH.
Qed.

Lemma all_chars_app p s1 s2 :
  all_chars p (s1 +:+ s2) = all_chars p s1 && all_chars p s2.
Proof. induction s1 as [|c s1 IH]; simpl; [done |]. by rewrite IH, andb_assoc. Qed.

Lemma prefix_spec sub s :
  String.prefix sub s = true <-> exists post, s = sub +:+ post.
Proof.
  revert s. induction sub as [|c sub IH]; intros s.
  - split; [intros _; by exists s | intros _; by destruct s].
  - destruct s as [|c' s]; simpl.
    { split; [done | intros (post & H); discriminate]. }
    destruct (Ascii.ascii_dec c c') as [-> | Hne].
    + rewrite IH. split; intros (post & H); exists post; [by rewrite H | by injection H].
    + split; [done | intros (post & H); injection H; congruence].
Qed.

Lemma includes_spec sub s :
  Js.includes sub s = true <-> exists pre post, s = pre +:+ sub +:+ post.
Proof.
  induction s as [|c s IH].
  - cbn [Js.includes]. rewrite orb_false_r, prefix_spec. split.
    + intros (post & H). by exists "", post.
    + intros (pre & post & H). destruct pre; [by exists post | discriminate].
  - cbn [Js.includes]. rewrite orb_true_iff, prefix_spec, IH. split.
    + intros [(post & H) | (pre & post & H)].
      * by exists "", post.
      * exists (String c pre), post. simpl. by rewrite H.
    + intros (pre & post & H). destruct pre as [|c' pre].
      * left. by exists post.
      * right. exists pre, post. simpl in H. by injection H.
Qed.

Lemma toLowerCase_app s1 s2 :
  Js.toLowerCase (s1 +:+ s2) = Js.toLowerCase s1 +:+ Js.toLowerCase s2.
Proof. induction s1 as [|c s1 IH]; simpl; [done |]. by rewrite IH. Qed.

Lemma toLowerCase_app_inv s a b :
  Js.toLowerCase s = a +:+ b ->
  exists s1 s2, s = s1 +:+ s2 /\ Js.toLowerCase s1 = a /\ Js.toLowerCase s2 = b.
Proof.
  revert s. induction a as [|c a IH]; intros s H.
  - by exists "", s.
  - destruct s as [|c' s]; [discriminate |]. simpl in H. injection H as Hc Hs.
    destruct (IH s Hs) as (s1 & s2 & -> & H1 & H2).
    exists (String c' s1), s2. simpl. by rewrite Hc, H1.
Qed.

Lemma includes_sales nm :
  Js.includes "sales" (Js.toLowerCase nm) = true <-> mentions_sales nm.
Proof.
  rewrite includes_spec. split.
  - intros (pre & post & H).
    destruct (toLowerCase_app_inv _ _ _ H) as (s1 & s2 & -> & _ & H2).
    destruct (toLowerCase_app_inv _ _ _ H2) as (mid & s3 & -> & Hmid & _).
    by exists s1, mid, s3.
  - intros (pre & mid & post & -> & Hmid).
    exists (Js.toLowerCase pre), (Js.toLowerCase post).
    by rewrite !toLowerCase_app, Hmid.
Qed.

(** X1. The generation delay and the rows of the CSV follow one test: the
    name contains [sales] in any letter case.  Such a name gets the delay
    8000 and the three Product rows, any other name the delay 5000 and the
    three Item rows; the header line is the same; and changing the case of
    the letters of a name changes neither. *)
Theorem sales_heuristic (nm : string) :
  (mentions_sales nm ->
     generation_delay nm = 8000
     /\ csv_content nm = "id,name,value" +:+ String "010" "" +:+ sales_rows)
  /\ (~ mentions_sales nm ->
        generation_delay nm = 5000
        /\ csv_content nm = "id,name,value" +:+ String "010" "" +:+ item_rows)
  /\ generation_delay (Js.toLowerCase nm) = generation_delay nm
  /\ csv_content (Js.toLowerCase nm) = csv_content nm.
Proof.
  unfold generation_delay, csv_content. rewrite toLowerCase_idem.
  split; [| split]; [| | done].
  - intros H. apply includes_sales in H. by rewrite H.
  - intros H. destruct (Js.includes "sales" (Js.toLowerCase nm)) eqn:Hi; [| done].
    apply includes_sales in Hi. done.
Qed.

Lemma sales_heuristic_witness :
  generation_delay "Quarterly SALES (EU)" = 8000
  /\ generation_delay "Inventory Report" = 5000.
Proof.
  destruct (sales_heuristic "Quarterly SALES (EU)") as (Hsales & _).
  destruct (sales_heuristic "Inventory Report") as (_ & Hother & _).
  split.
  - apply Hsales. exists "Quarterly ", "SALES", " (EU)". split; reflexivity.
  - apply Hother. intros H. apply includes_sales in H. vm_compute in H.
    discriminate.
Defined.

(** X2. The part of a file name that comes from the job name is the name in
    lower case with every run of white space turned into one dash: it holds
    no white space and no upper-case letter.  It is what the file path of a
    completed job is built from, and the attachment name of a download when
    the header made from it is a valid one; when it is not, the download
    sets no disposition at all. *)
Theorem file_names_sanitised (nm jobId : string) (now : Z) (st : State) :
  all_chars not_space (slug nm) = true
  /\ all_chars is_lower (slug nm) = true
  /\ filePath (completed_record jobId nm now)
     = Some ("/reports/" +:+ slug nm +:+ "-" +:+ jobId +:+ ".csv")
  /\ disposition nm = "attachment; filename=" +:+ slug nm +:+ ".csv"
  /\ (forall r, reports st !! jobId = Some r -> ready r = true ->
        ~ expired r now -> name r = nm ->
        let acts := acts_of (snd (download_report jobId now st)) in
        (Js.valid_header_value (disposition nm) = true ->
           header "Content-Disposition" acts
           = Some ("attachment; filename=" +:+ slug nm +:+ ".csv"))
        /\ (Js.valid_header_value (disposition nm) = false ->
              header "Content-Disposition" acts = None
              /\ status_code acts = 500)).
Proof.
  unfold slug, Js.replace_spaces. split; [| split; [| split; [| split]]].
  - apply replace_spaces_from_no_space.
  - apply replace_spaces_from_lower, toLowerCase_lower.
  - reflexivity.
  - reflexivity.
  - intros r Hr Hrdy Hexp Hnm. cbv zeta.
    rewrite (download_report_unfold _ _ _ _ Hr), Hrdy.
    apply Z.ltb_nlt in Hexp. simpl negb. cbv iota. rewrite Hexp, Hnm.
    cbn [snd acts_of file_reply]. split; intros Hv; rewrite Hv; by repeat split.
Qed.

Lemma file_names_sanitised_witness :
  header "Content-Disposition"
         (acts_of (snd (download_report "job-1" 1000 st_completed)))
  = Some "attachment; filename=sales-report.csv"
  /\ header "Content-Disposition"
            (acts_of (snd (download_report "job-1" 1000 st_bell)))
     = None.
Proof.
  destruct (file_names_sanitised "Sales Report" "job-1" 1000 st_completed)
    as (_ & _ & _ & _ & H).
  destruct (file_names_sanitised bell_name "job-1" 1000 st_bell)
    as (_ & _ & _ & _ & H').
  split.
  - apply (H (completed_record "job-1" "Sales Report" 0)).
    + reflexivity.
    + reflexivity.
    + unfold expired, expiry_window. simpl. lia.
    + reflexivity.
    + reflexivity.
  - apply (H' (completed_record "job-1" bell_name 0)).
    + reflexivity.
    + reflexivity.
    + unfold expired, expiry_window. simpl. lia.
    + reflexivity.
    + reflexivity.
Defined.

(** *** Downloads and evictions *)

Lemma download_report_sends jobId now st r :
  reports st !! jobId = Some r -> ready r = true -> ~ expired r now ->
  download_report jobId now st = (st, Reply (file_reply (name r))).
Proof.
  intros Hr Hrdy Hexp. rewrite (download_report_unfold _ _ _ _ Hr), Hrdy.
  apply Z.ltb_nlt in Hexp. simpl negb. cbv iota. by rewrite Hexp.
Qed.

Lemma download_report_missing jobId now st :
  reports st !! jobId = None ->
  download_report jobId now st
  = (st, Reply [SetStatus 404; JsonError "Report not found"]).
Proof. intros Hr. unfold download_report. by rewrite Hr. Qed.

Lemma report_status_missing conn jobId now st :
  reports st !! jobId = None ->
  report_status conn jobId now st
  = (st, Push conn (sse_headers ++ [Write (FrameError "Report not found"); End])).
Proof. intros Hr. unfold report_status. by rewrite Hr. Qed.

(** X3. A download of a ready job within the expiry window changes nothing,
    whether it sends the file or throws, and its answer does not depend on
    the time: the same download again, at any time still within the window,
    is answered the same way.  The file is sent when the name is a string
    whose file name is a valid header value, and it is the CSV of that name;
    no file is sent otherwise. *)
Theorem download_repeatable (jobId : string) (now now' : Z) (st : State)
    (r : ReportData) :
  reports st !! jobId = Some r -> ready r = true ->
  ~ expired r now -> ~ expired r now' ->
  let acts := acts_of (snd (download_report jobId now st)) in
  fst (download_report jobId now st) = st
  /\ download_report jobId now' (fst (download_report jobId now st))
     = download_report jobId now st
  /\ (forall nm : string, name r = nm ->
        Js.valid_header_value (disposition nm) = true ->
        sent acts = Some (csv_content nm) /\ status_code acts = 200)
  /\ (sendable r = false -> sent acts = None /\ status_code acts = 500).
Proof.
  intros Hr Hrdy Hexp Hexp'. cbv zeta.
  rewrite (download_report_sends _ _ _ _ Hr Hrdy Hexp). cbn [fst snd acts_of].
  rewrite (download_report_sends _ _ _ _ Hr Hrdy Hexp').
  split; [done |]. split; [done |]. split.
  - intros nm Hnm Hv. rewrite (file_reply_sendable r nm Hnm); [done |].
    unfold sendable. by rewrite Hnm.
  - intros Hs. destruct (file_reply_throws r Hs) as (H1 & H2 & _). done.
Qed.

Lemma download_repeatable_witness :
  download_report "job-1" 9000 (fst (download_report "job-1" 1000 st_completed))
  = download_report "job-1" 1000 st_completed
  /\ sent (acts_of (snd (download_report "job-1" 1000 st_bell))) = None.
Proof.
  split.
  - apply (download_repeatable "job-1" 1000 9000 st_completed
             (completed_record "job-1" "Sales Report" 0)).
    + reflexivity.
    + reflexivity.
    + unfold expired, expiry_window. simpl. lia.
    + unfold expired, expiry_window. simpl. lia.
  - apply (download_repeatable "job-1" 1000 9000 st_bell
             (completed_record "job-1" bell_name 0)).
    + reflexivity.
    + reflexivity.
    + unfold expired, expiry_window. simpl. lia.
    + unfold expired, expiry_window. simpl. lia.
    + reflexivity.
Defined.

(** X4. Once an access has evicted an expired job, by the status stream or
    by a download of a ready job, the job is unknown to both endpoints: a
    status request writes [Report not found] and ends, a download answers
    404, and neither changes the state any more. *)
Theorem evicted_job_is_unknown (conn conn' : nat) (jobId : string)
    (now now' : Z) (st : State) (r : ReportData) :
  reports st !! jobId = Some r -> expired r now ->
  let by_status := fst (report_status conn jobId now st) in
  let by_download := fst (download_report jobId now st) in
  (report_status conn' jobId now' by_status
   = (by_status,
      Push conn' (sse_headers ++ [Write (FrameError "Report not found"); End]))
   /\ download_report jobId now' by_status
      = (by_status, Reply [SetStatus 404; JsonError "Report not found"]))
  /\ (ready r = true ->
        report_status conn' jobId now' by_download
        = (by_download,
           Push conn' (sse_headers ++ [Write (FrameError "Report not found"); End]))
        /\ download_report jobId now' by_download
           = (by_download, Reply [SetStatus 404; JsonError "Report not found"])).
Proof.
  intros Hr Hexp. cbv zeta.
  rewrite (report_status_expired _ _ _ _ _ Hr Hexp). cbn [fst].
  assert (Hgone : reports (delete_report jobId st) !! jobId = None)
    by apply lookup_delete_eq.
  split.
  - split; [by apply report_status_missing | by apply download_report_missing].
  - intros Hrdy. rewrite (download_report_unfold _ _ _ _ Hr), Hrdy.
    apply Z.ltb_lt in Hexp. simpl negb. cbv iota. rewrite Hexp. cbn [fst].
    split; [by apply report_status_missing | by apply download_report_missing].
Qed.

Lemma evicted_job_is_unknown_witness :
  status_code
    (acts_of (snd (download_report "job-1" 1800002
                     (fst (report_status 0 "job-1" 1800001 st_completed)))))
  = 404.
Proof.
  assert (Hexp : expired (completed_record "job-1" "Sales Report" 0) 1800001)
    by (unfold expired, expiry_window; simpl; lia).
  destruct (evicted_job_is_unknown 0 1 "job-1" 1800001 1800002 st_completed
              (completed_record "job-1" "Sales Report" 0) eq_refl Hexp)
    as ((_ & Hd) & _).
  by rewrite Hd.
Defined.

(** *** Timers *)

Lemma fire_middle st l1 t l2 :
  timers st = l1 ++ t :: l2 ->
  fire (length l1) st
  = run_callback (callback t) (mkState (reports st) (l1 ++ l2)).
Proof.
  intros Ht. unfold fire. rewrite Ht.
  rewrite list_lookup_middle by reflexivity. by rewrite delete_middle.
Qed.

Lemma fire_complete st i d j nm now :
  timers st !! i = Some (mkTimer d (Complete j nm now)) ->
  fire i st
  = (mkState (<[j := completed_record j nm now]> (reports st))
             (delete i (timers st)), Silent).
Proof. intros Ht. unfold fire. by rewrite Ht. Qed.

(** X5. The deferred transition writes its record whether or not the job
    is still in the store.  A job accepted at [now], evicted while pending
    by a status request made past the expiry window, is back in the store,
    completed and with its first creation time, as soon as its timer fires;
    being still past the window, the next status request evicts it again. *)
Theorem evicted_job_returns (conn : nat) (nm uuid : string) (now now' : Z)
    (st : State) :
  nm <> "" -> now < now' - expiry_window ->
  let st1 := fst (generate_report (Some nm) uuid now st) in
  let st2 := fst (report_status conn uuid now' st1) in
  let st3 := fst (fire (length (timers st)) st2) in
  reports st2 !! uuid = None
  /\ reports st3 !! uuid = Some (completed_record uuid nm now)
  /\ reports (fst (report_status conn uuid now' st3)) !! uuid = None.
Proof.
  intros Hnm Hold. cbv zeta. rewrite generate_report_valid by done. cbn [fst].
  set (st1 := mkState _ _).
  assert (Hr1 : reports st1 !! uuid = Some (pending_record nm now))
    by apply lookup_insert_eq.
  rewrite (report_status_expired _ _ _ _ _ Hr1 Hold). cbn [fst].
  split; [apply lookup_delete_eq |].
  assert (Hfire : fire (length (timers st)) (delete_report uuid st1)
                  = (mkState (<[uuid := completed_record uuid nm now]>
                                (reports (delete_report uuid st1)))
                             (delete (length (timers st))
                                     (timers (delete_report uuid st1))), Silent)).
  { apply (fire_complete _ _ (generation_delay nm)). simpl.
    apply list_lookup_middle. reflexivity. }
  rewrite Hfire. cbn [fst]. set (st3 := mkState _ _).
  assert (Hr3 : reports st3 !! uuid = Some (completed_record uuid nm now))
    by apply lookup_insert_eq.
  split; [exact Hr3 |].
  rewrite (report_status_expired _ _ _ _ _ Hr3 Hold). apply lookup_delete_eq.
Qed.

Lemma evicted_job_returns_witness :
  reports (fst (fire 0 (fst (report_status 0 "job-1" 1800001 st_pending))))
    !! "job-1"
  = Some (completed_record "job-1" "Inventory Report" 0).
Proof.
  assert (Hold : 0 < 1800001 - expiry_window) by (unfold expiry_window; lia).
  destruct (evicted_job_returns 0 "Inventory Report" "job-1" 0 1800001 init)
    as (_ & H & _); [discriminate | exact Hold | exact H].
Defined.

(** *** A job from the request to the end of its stream *)

Lemma checkStatus_pending conn jobId st r :
  reports st !! jobId = Some r -> status r = pending ->
  checkStatus conn jobId st
  = (setTimeout (CheckStatus conn jobId) 50000 st, [Write (FrameRecord r)]).
Proof. intros Hr Hs. rewrite checkStatus_unfold, Hr, Hs. reflexivity. Qed.

Lemma checkStatus_terminal conn jobId st r :
  reports st !! jobId = Some r -> is_terminal (status r) = true ->
  checkStatus conn jobId st = (st, [Write (FrameRecord r); End]).
Proof. intros Hr Hs. rewrite checkStatus_unfold, Hr, Hs. reflexivity. Qed.

Lemma fresh_job_is_pending_aux conn nm uuid now now' st :
  nm <> "" -> ~ now < now' - expiry_window ->
  generate_report (Some nm) uuid now st
  = (mkState (<[uuid := pending_record nm now]> (reports st))
             (timers st ++ [mkTimer (generation_delay nm) (Complete uuid nm now)]),
     Reply [JsonJobId uuid])
  /\ report_status conn uuid now'
       (mkState (<[uuid := pending_record nm now]> (reports st))
                (timers st ++ [mkTimer (generation_delay nm) (Complete uuid nm now)]))
     = (mkState (<[uuid := pending_record nm now]> (reports st))
                ((timers st ++ [mkTimer (generation_delay nm) (Complete uuid nm now)])
                   ++ [mkTimer 50000 (CheckStatus conn uuid)]),
        Push conn (sse_headers ++ [Write (FrameRecord (pending_record nm now))])).
Proof.
  intros Hnm Hwin. split; [by apply generate_report_valid |].
  set (st1 := mkState _ _).
  assert (Hr1 : reports st1 !! uuid = Some (pending_record nm now))
    by apply lookup_insert_eq.
  rewrite (report_status_live _ _ _ _ _ Hr1 Hwin).
  by rewrite (checkStatus_pending _ _ _ _ Hr1 eq_refl).
Qed.

(** X6. Right after a request is accepted the job is there but not ready:
    a download answers 400 [Report is not ready for download] and changes
    nothing, and a status request made within the expiry window writes the
    pending record, leaves the stream open and schedules one poll. *)
Theorem fresh_job_is_pending (conn : nat) (nm uuid : string) (now now' : Z)
    (st : State) :
  nm <> "" -> ~ now < now' - expiry_window ->
  let st1 := fst (generate_report (Some nm) uuid now st) in
  download_report uuid now' st1
  = (st1, Reply [SetStatus 400; JsonError "Report is not ready for download"])
  /\ report_status conn uuid now' st1
     = (setTimeout (CheckStatus conn uuid) 50000 st1,
        Push conn (sse_headers ++ [Write (FrameRecord (pending_record nm now))])).
Proof.
  intros Hnm Hwin. cbv zeta. rewrite generate_report_valid by done. cbn [fst].
  set (st1 := mkState _ _).
  assert (Hr1 : reports st1 !! uuid = Some (pending_record nm now))
    by apply lookup_insert_eq.
  split.
  - by rewrite (download_report_unfold _ _ _ _ Hr1).
  - rewrite (report_status_live _ _ _ _ _ Hr1 Hwin).
    by rewrite (checkStatus_pending _ _ _ _ Hr1 eq_refl).
Qed.

Lemma fresh_job_is_pending_witness :
  status_code (acts_of (snd (download_report "job-1" 10 st_pending))) = 400.
Proof.
  assert (Hwin : ~ 0 < 10 - expiry_window) by (unfold expiry_window; lia).
  destruct (fresh_job_is_pending 0 "Inventory Report" "job-1" 0 10 init)
    as [Hd _]; [discriminate | exact Hwin |].
  change st_pending
    with (fst (generate_report (Some "Inventory Report") "job-1" 0 init)).
  by rewrite Hd.
Defined.

(** X7. A stream opened while the job is pending delivers the job to its
    end: after the request, the status request, the deferred transition and
    the next poll, in this order, the response has received the headers,
    the pending record, the completed record and the end, and no timer of
    these four turns is left. *)
Theorem stream_follows_job (conn : nat) (nm uuid : string) (now now' : Z)
    (st : State) :
  nm <> "" -> ~ now < now' - expiry_window ->
  let n := length (timers st) in
  let es := [GenerateReq (Some nm) uuid now; StatusReq conn uuid now';
             TimerFire n; TimerFire n] in
  stream_of conn (outputs st es)
  = sse_headers ++ [Write (FrameRecord (pending_record nm now));
                    Write (FrameRecord (completed_record uuid nm now)); End]
  /\ timers (run st es) = timers st
  /\ reports (run st es) = <[uuid := completed_record uuid nm now]> (reports st).
Proof.
  intros Hnm Hwin. cbv zeta.
  destruct (fresh_job_is_pending_aux conn nm uuid now now' st Hnm Hwin)
    as (Hgen & Hstat).
  cbn [outputs run step]. rewrite Hgen. cbn [fst snd]. rewrite Hstat. cbn [fst snd].
  set (T1 := mkTimer (generation_delay nm) (Complete uuid nm now)).
  set (T2 := mkTimer 50000 (CheckStatus conn uuid)).
  set (m1 := <[uuid := pending_record nm now]> (reports st)).
  assert (Hf1 : fire (length (timers st)) (mkState m1 ((timers st ++ [T1]) ++ [T2]))
                = (mkState (<[uuid := completed_record uuid nm now]> m1)
                           (timers st ++ [T2]), Silent)).
  { rewrite (fire_middle _ (timers st) T1 [T2]); [done |].
    simpl. by rewrite <- app_assoc. }
  rewrite Hf1. cbn [fst snd]. set (st3 := mkState _ _).
  assert (Hr3 : reports st3 !! uuid = Some (completed_record uuid nm now))
    by apply lookup_insert_eq.
  assert (Hf2 : fire (length (timers st)) st3
                = (mkState (reports st3) (timers st),
                   Push conn [Write (FrameRecord (completed_record uuid nm now)); End])).
  { rewrite (fire_middle _ (timers st) T2 []); [| done].
    rewrite app_nil_r. cbn [run_callback callback T2].
    rewrite (checkStatus_terminal _ _ _ (completed_record uuid nm now)); done. }
  rewrite Hf2. cbn [fst snd stream_of acts_of].
  rewrite !bool_decide_eq_true_2 by done. rewrite app_nil_r.
  split; [by rewrite <- app_assoc |]. split; [done |].
  subst st3 m1. cbn [reports]. apply insert_insert_eq.
Qed.

Lemma stream_follows_job_witness :
  ended (stream_of 7 (outputs init [GenerateReq (Some "Sales Report") "job-1" 0;
                                    StatusReq 7 "job-1" 100;
                                    TimerFire 0; TimerFire 0])) = true.
Proof.
  assert (Hwin : ~ 0 < 100 - expiry_window) by (unfold expiry_window; lia).
  destruct (stream_follows_job 7 "Sales Report" "job-1" 0 100 init)
    as (Hs & _); [discriminate | exact Hwin |].
  change (length (timers init)) with 0%nat in Hs. by rewrite Hs.
Defined.

(** *** What every reachable store satisfies *)

Lemma scheduled_inv_step st st' new ret :
  step_effect st st' new ret -> scheduled_inv st -> scheduled_inv st'.
Proof.
  intros Heff Hinv j r s Hr Hp Hs.
  destruct Heff as [Hsub Hd | nm uuid now _ Hrep Hd | v uuid now _ Hns Hrep Hd
                   | j' nm now l1 l2 Hd Hd' Hrep].
  - rewrite Hd. eapply Hinv; [| done | done]. eapply lookup_weaken; eauto.
  - rewrite Hrep in Hr. rewrite Hd.
    apply lookup_insert_Some in Hr as [[<- <-] | [_ Hr]].
    + exists (mkDue uuid nm now). split; [| done].
      apply elem_of_app. right. by left.
    + destruct (Hinv j r s Hr Hp Hs) as (d & Hin & Hj). exists d. split; [| done].
      apply elem_of_app. by left.
  - rewrite Hrep in Hr. rewrite Hd.
    apply lookup_insert_Some in Hr as [[<- <-] | [_ Hr]].
    + by destruct (Hns s).
    + by apply (Hinv j r s).
  - rewrite Hrep in Hr. apply lookup_insert_Some in Hr as [[<- <-] | [Hne Hr]].
    + discriminate.
    + destruct (Hinv j r s Hr Hp Hs) as (d & Hin & Hj). exists d. split; [| done].
      rewrite Hd in Hin. rewrite Hd'.
      apply elem_of_app in Hin as [Hin | Hin]; apply elem_of_app; [by left |].
      apply elem_of_cons in Hin as [-> | Hin]; [| by right].
      simpl in Hj. congruence.
Qed.

Lemma scheduled_inv_run es : scheduled_inv (run init es).
Proof.
  induction es as [|e es IH] using rev_ind.
  - intros j r s Hr. simpl in Hr. by rewrite lookup_empty in Hr.
  - rewrite run_snoc. eapply scheduled_inv_step; [apply step_effect_of | exact IH].
Qed.

Lemma due_lookup st d :
  d ∈ due st ->
  exists i delay, timers st !! i
                  = Some (mkTimer delay (Complete (due_job d) (due_name d) (due_now d))).
Proof.
  unfold due. intros (t & Hin & Ht)%list_elem_of_omap.
  apply list_elem_of_lookup in Hin as [i Hi]. exists i, (delay t).
  rewrite Hi. destruct t as [dl [j nm now | c j]]; [| discriminate].
  by injection Ht as <-.
Qed.

Lemma lookup_due st i delay j nm now :
  timers st !! i = Some (mkTimer delay (Complete j nm now)) ->
  mkDue j nm now ∈ due st.
Proof.
  intros Hi. unfold due. apply list_elem_of_omap.
  exists (mkTimer delay (Complete j nm now)). split; [| done].
  by apply list_elem_of_lookup_2 with i.
Qed.

(** X8. Over any run, a pending job of the store that a string names has
    its deferred transition waiting in the timer queue, and when that timer
    fires the job is completed; if [uuidv4()] did not repeat, the completed
    record has the name and the creation time of the pending one.  A job
    named by another value is left without one: if [uuidv4()] did not
    repeat, no timer of the queue completes it, and for as long as it is in
    the store it keeps the pending record it has.  Such a job is reached by
    a request named by a number. *)
Theorem pending_job_is_scheduled (es : list Event) (jobId : string)
    (r : ReportData) :
  reports (run init es) !! jobId = Some r -> status r = pending ->
  ((exists s : string, name r = s) ->
     exists i delay (nm : string) now,
       timers (run init es) !! i = Some (mkTimer delay (Complete jobId nm now))
       /\ reports (fst (fire i (run init es))) !! jobId
          = Some (completed_record jobId nm now)
       /\ (NoDup (uuids es) -> name r = nm /\ now = createdAt r))
  /\ ((forall s : string, name r <> s) -> NoDup (uuids es) ->
        (forall i delay nm now,
           timers (run init es) !! i
           <> Some (mkTimer delay (Complete jobId nm now)))
        /\ (forall es' r', NoDup (uuids (es ++ es')) ->
              reports (run init (es ++ es')) !! jobId = Some r' -> r' = r))
  /\ (let stuck := run init [GenerateReq (Some (Js.JNumber 123)) "job-1" 0] in
      reports stuck !! "job-1" = Some (pending_record (Js.JNumber 123) 0)
      /\ timers stuck = []).
Proof.
  intros Hr Hp. split; [| split].
  - intros [s Hs].
    destruct (scheduled_inv_run es jobId r s Hr Hp Hs) as (d & Hd & <-).
    destruct (due_lookup _ d Hd) as (i & delay & Hi).
    exists i, delay, (due_name d), (due_now d). split; [done |]. split.
    + rewrite (fire_complete _ _ _ _ _ _ Hi). apply lookup_insert_eq.
    + intros Hnd.
      rewrite (inv_due_pending _ _ (store_inv_run es Hnd) d r Hd Hr). done.
  - intros Hns Hnd. split.
    + intros i delay nm now Hi. apply lookup_due in Hi.
      pose proof (inv_due_pending _ _ (store_inv_run es Hnd) _ r Hi Hr) as Heq.
      apply (Hns nm). by rewrite Heq.
    + intros es' r' Hnd' Hr'.
      destruct (follows_run es es' jobId r Hnd' Hr) as [Hev _].
      destruct (Hev r' Hr') as [-> | (nm & Heq & _)]; [done |].
      exfalso. apply (Hns nm). by rewrite Heq.
  - done.
Qed.

Lemma pending_job_is_scheduled_witness :
  exists i delay (nm : string) now,
    timers st_pending !! i = Some (mkTimer delay (Complete "job-1" nm now))
    /\ reports (fst (fire i st_pending)) !! "job-1"
       = Some (completed_record "job-1" nm now).
Proof.
  destruct (pending_job_is_scheduled
              [GenerateReq (Some "Inventory Report") "job-1" 0] "job-1"
              (pending_record "Inventory Report" 0) eq_refl eq_refl)
    as (H & _).
  destruct H as (i & delay & nm & now & Ht & Hf & _).
  { by exists "Inventory Report". }
  exists i, delay, nm, now. split; [exact Ht | exact Hf].
Defined.

(** X9. Only the generation endpoint makes jobs, and only with a name that
    passes its check: over any run, every job of the store has an id that
    [uuidv4()] gave to a request of the run and a name that is not empty,
    [null], [false] or zero; a job that a string names has an id that the
    endpoint returned earlier in the run; a run in which no request passes
    the check leaves the store empty.  Not every job has an id that was
    returned: the job of a request named by a number is stored, and the
    request answered without an id. *)
Theorem jobs_come_from_requests (es : list Event) :
  (forall (jobId : string) r,
     reports (run init es) !! jobId = Some r ->
     (jobId ∈ uuids es) /\ Js.truthy_value (name r) = true
     /\ ((exists nm : string, name r = nm) ->
           jobId ∈ returned_ids (outputs init es)))
  /\ (uuids es = [] -> reports (run init es) = ∅)
  /\ (let es0 := [GenerateReq (Some (Js.JNumber 123)) "job-1" 0] in
      reports (run init es0) !! "job-1"
      = Some (pending_record (Js.JNumber 123) 0)
      /\ returned_ids (outputs init es0) = []).
Proof.
  destruct (known_inv_run es) as [Hrec _]. split; [| split].
  - exact Hrec.
  - intros Hnone. apply map_eq. intros j. rewrite lookup_empty.
    destruct (reports (run init es) !! j) as [r|] eqn:Hr; [| done].
    destruct (Hrec j r Hr) as [Hin _]. rewrite Hnone in Hin.
    by apply not_elem_of_nil in Hin.
  - done.
Qed.

Lemma jobs_come_from_requests_witness :
  "job-1" ∈ returned_ids (outputs init [GenerateReq (Some "Sales Report") "job-1" 0;
                                        TimerFire 0])
  /\ reports (run init [GenerateReq (Some "") "job-9" 0; StatusReq 0 "job-9" 1;
                        DownloadReq "job-9" 2; TimerFire 0]) = ∅.
Proof.
  split.
  - destruct (jobs_come_from_requests
                [GenerateReq (Some "Sales Report") "job-1" 0; TimerFire 0])
      as (H & _).
    destruct (H "job-1" (completed_record "job-1" "Sales Report" 0) eq_refl)
      as (_ & _ & Hret).
    apply Hret. by exists "Sales Report".
  - apply (jobs_come_from_requests
             [GenerateReq (Some "") "job-9" 0; StatusReq 0 "job-9" 1;
              DownloadReq "job-9" 2; TimerFire 0]).
    reflexivity.
Defined.

End ServerMore.

(** ** Proofs about the rest of the hook and the panel *)
Module HookProofs.
Import Client ClientProps Hook Panel HookProps ClientProofs.

(** *** Removing jobs *)

Lemma filter_idem {A} (P : A -> Prop) `{forall x, Decision (P x)} (l : list A) :
  filter P (filter P l) = filter P l.
Proof.
  induction l as [|x l IH]; [done |]. rewrite filter_cons.
  destruct (decide (P x)) as [Hx | Hx]; [| done].
  by rewrite filter_cons_True, IH.
Qed.

Lemma filter_all {A} (P : A -> Prop) `{forall x, Decision (P x)} (l : list A) :
  (forall x, x ∈ l -> P x) -> filter P l = l.
Proof.
  induction l as [|x l IH]; intros Hall; [done |].
  rewrite filter_cons_True by (apply Hall; by left).
  rewrite IH; [done |]. intros y Hy. apply Hall. by right.
Qed.

(** X10. [handleRemoveJob] drops every job with the given id and nothing
    else, the others keeping their order; it closes the stream of that job
    exactly when one was open and forgets it; it hides the panel when no job
    is left and leaves its visibility alone otherwise; removing an id that
    no job has changes no job, and removing twice is removing once. *)
Theorem handleRemoveJob_drops (jobId : string) (h : HookState) :
  let h' := fst (handleRemoveJob jobId h) in
  let effs := snd (handleRemoveJob jobId h) in
  (forall job, job ∈ jobs h' <-> job ∈ jobs h /\ id job <> jobId)
  /\ jobs h' = filter (fun job => id job <> jobId) (jobs h)
  /\ eventSources h' !! jobId = None
  /\ (forall other : string, other <> jobId ->
        eventSources h' !! other = eventSources h !! other)
  /\ (StreamEffect (CloseSource jobId) ∈ effs <-> is_Some (eventSources h !! jobId))
  /\ (jobs h' = [] -> showDownloadSection h' = false)
  /\ (jobs h' <> [] -> showDownloadSection h' = showDownloadSection h)
  /\ isStatusOpen h' = isStatusOpen h
  /\ (jobId ∉ id <$> jobs h -> jobs h' = jobs h)
  /\ fst (handleRemoveJob jobId h') = h'.
Proof.
  cbv zeta. unfold handleRemoveJob. cbn [fst snd jobs eventSources
    showDownloadSection isStatusOpen].
  set (kept := filter (fun job => id job <> jobId) (jobs h)).
  split; [| split; [| split; [| split; [| split; [| split; [| split;
    [| split; [| split]]]]]]]].
  - intros job. unfold kept. rewrite list_elem_of_filter. tauto.
  - done.
  - apply lookup_delete_eq.
  - intros other Hne. by apply lookup_delete_ne.
  - destruct (eventSources h !! jobId) as [src|]; split.
    + by eexists.
    + intros _. by left.
    + destruct (Js.inherited jobId); intros H.
      * apply list_elem_of_singleton in H. discriminate.
      * by apply not_elem_of_nil in H.
    + intros [? ?]. discriminate.
  - intros ->. by rewrite bool_decide_eq_true_2.
  - intros Hne. rewrite bool_decide_eq_false_2; [done |].
    by destruct kept.
  - done.
  - intros Hnot. apply filter_all. intros job Hin Heq. apply Hnot.
    apply list_elem_of_fmap. by exists job.
  - unfold kept. rewrite filter_idem. f_equal.
    + by destruct (bool_decide _).
    + apply map_eq. intros k. destruct (decide (k = jobId)) as [-> | Hne].
      * by rewrite !lookup_delete_eq.
      * by rewrite !lookup_delete_ne.
Qed.

(** X11. [handleCancelAll] keeps the completed jobs, in their order, and
    drops every pending or failed one; it closes every open stream and
    empties the map of sources; it hides the panel even when completed jobs
    remain; and cancelling again changes nothing. *)
Theorem handleCancelAll_keeps_completed (h : HookState) :
  let h' := fst (handleCancelAll h) in
  let effs := snd (handleCancelAll h) in
  jobs h' = filter (fun job => status (job_status job) = completed) (jobs h)
  /\ (forall job, job ∈ jobs h' <->
        job ∈ jobs h /\ status (job_status job) = completed)
  /\ eventSources h' = ∅
  /\ (forall jobId : string,
        StreamEffect (CloseSource jobId) ∈ effs
        <-> is_Some (eventSources h !! jobId))
  /\ length effs = size (eventSources h)
  /\ showDownloadSection h' = false
  /\ panel h' = None
  /\ fst (handleCancelAll h') = h'.
Proof.
  cbv zeta. unfold handleCancelAll, panel. cbn [fst snd jobs eventSources
    showDownloadSection isStatusOpen].
  split; [| split; [| split; [| split; [| split; [| split; [| split]]]]]];
    try done.
  - intros job. rewrite list_elem_of_filter. tauto.
  - intros jobId. rewrite list_elem_of_In, in_map_iff. split.
    + intros ([k src] & [= <-] & Hin). apply list_elem_of_In in Hin.
      apply elem_of_map_to_list in Hin. by eexists.
    + intros [src Hsrc]. exists (jobId, src). split; [done |].
      apply list_elem_of_In. by apply elem_of_map_to_list.
  - by rewrite length_map, length_map_to_list.
  - by rewrite filter_idem.
Qed.

(** X12. A transport error on the stream of a job turns every entry of
    that id into the job as it was when the stream was opened, now failed
    with [Connection error]; the other jobs, the number of jobs and the
    panel are untouched; the failure callback is called once, the source
    is closed and forgotten; and no entry of that id is pending any more. *)
Theorem onerror_fails_job (job : ReportJob) (clock : Clock) (h : HookState) :
  let failedJob :=
    mkJob (id job)
          (mkStatus failed (Some "Connection error") (Some (clock 0%nat)))
          (name job) (createdAt job) (downloaded job) in
  let h' := fst (onerror job clock h) in
  let effs := snd (onerror job clock h) in
  length (jobs h') = length (jobs h)
  /\ id <$> jobs h' = id <$> jobs h
  /\ (forall i j, jobs h !! i = Some j ->
        jobs h' !! i = Some (if bool_decide (id j = id job) then failedJob else j))
  /\ (forall j, j ∈ jobs h' -> id j = id job ->
        j = failedJob /\ status (job_status j) = failed)
  /\ effs = [StreamEffect (JobFailed failedJob); StreamEffect (CloseSource (id job))]
  /\ eventSources h' !! id job = None
  /\ showDownloadSection h' = showDownloadSection h
  /\ isStatusOpen h' = isStatusOpen h.
Proof.
  cbv zeta. unfold onerror. cbn [fst snd jobs eventSources
    showDownloadSection isStatusOpen].
  split; [| split; [| split; [| split; [| split; [| split; [| split]]]]]];
    try done.
  - apply length_map.
  - induction (jobs h) as [|j l IH]; [done |]. simpl. f_equal; [| exact IH].
    destruct (bool_decide (id j = id job)) eqn:Hj; [| done].
    by apply bool_decide_eq_true in Hj.
  - intros i j Hj. revert i Hj. induction (jobs h) as [|j0 l IH]; intros i Hj.
    + by rewrite lookup_nil in Hj.
    + destruct i as [|i]; simpl in *; [by injection Hj as -> | by apply IH].
  - intros j Hin Hid. apply list_elem_of_In, in_map_iff in Hin as (j0 & Hj0 & _).
    destruct (bool_decide (id j0 = id job)) eqn:Hb.
    + by subst j.
    + subst j. apply bool_decide_eq_false in Hb. done.
  - apply lookup_delete_eq.
Qed.

Lemma handleRemoveJob_drops_witness :
  jobs (fst (handleRemoveJob "job-1" sample_hook)) = [failed_job; finished_job]
  /\ showDownloadSection (fst (handleRemoveJob "job-1" sample_hook)) = true
  /\ jobs (fst (handleRemoveJob "job-7" sample_hook)) = jobs sample_hook.
Proof.
  destruct (handleRemoveJob_drops "job-1" sample_hook)
    as (_ & Heq & _ & _ & _ & _ & Hshow & _).
  destruct (handleRemoveJob_drops "job-7" sample_hook)
    as (_ & _ & _ & _ & _ & _ & _ & _ & Hsame & _).
  split; [| split].
  - rewrite Heq. reflexivity.
  - rewrite Hshow; [reflexivity |]. rewrite Heq. discriminate.
  - apply Hsame. vm_compute. intros H.
    repeat (apply elem_of_cons in H as [H | H]; [discriminate |]).
    inversion H.
Defined.

Lemma handleCancelAll_keeps_completed_witness :
  jobs (fst (handleCancelAll sample_hook)) = [finished_job]
  /\ (StreamEffect (CloseSource "job-1") ∈ snd (handleCancelAll sample_hook)).
Proof.
  destruct (handleCancelAll_keeps_completed sample_hook)
    as (Heq & _ & _ & Hclose & _).
  split.
  - rewrite Heq. reflexivity.
  - apply Hclose. by eexists.
Defined.

Lemma onerror_fails_job_witness :
  jobs (fst (onerror sample_job (fun _ => 7000%Z) sample_hook)) !! 0%nat
  = Some (mkJob "job-1" (mkStatus failed (Some "Connection error") (Some 7000%Z))
                "Sales Report" 0%Z (Some false)).
Proof.
  destruct (onerror_fails_job sample_job (fun _ => 7000%Z) sample_hook)
    as (_ & _ & Hat & _).
  apply (Hat 0%nat sample_job). reflexivity.
Defined.

(** *** Opening streams *)

Lemma filter_none {A} (P : A -> Prop) `{forall x, Decision (P x)} (l : list A) :
  (forall x, x ∈ l -> ~ P x) -> filter P l = [].
Proof.
  induction l as [|x l IH]; intros Hall; [done |].
  rewrite filter_cons_False by (apply Hall; by left).
  apply IH. intros y Hy. apply Hall. by right.
Qed.

Lemma connect_fold_lookup apiConfig (l : list ReportJob)
    (ref : gmap string Source) (k : string) :
  foldl (fun ref job => <[id job := status_url apiConfig (id job)]> ref) ref l !! k
  = if decide (k ∈ id <$> l) then Some (status_url apiConfig k) else ref !! k.
Proof.
  revert ref. induction l as [|job l IH]; intros ref.
  - destruct (decide _) as [H |]; [by apply not_elem_of_nil in H | done].
  - cbn [foldl]. rewrite IH, fmap_cons.
    destruct (decide (k ∈ id <$> l)) as [Hin | Hnot].
    + rewrite decide_True; [done | by right].
    + destruct (decide (k = id job)) as [-> | Hne].
      * rewrite lookup_insert_eq. rewrite decide_True; [done | by left].
      * rewrite lookup_insert_ne by done. rewrite decide_False; [done |].
        intros [? | ?]%elem_of_cons; done.
Qed.

Lemma truthy_at_false (ref : gmap string Source) (k : string) :
  truthy_at ref k = false <-> ref !! k = None /\ Js.inherited k = false.
Proof.
  unfold truthy_at. rewrite orb_false_iff, bool_decide_eq_false.
  rewrite <- eq_None_not_Some. done.
Qed.

Lemma new_pending_ids (ref : gmap string Source) (l : list ReportJob) (k : string) :
  k ∈ id <$> filter (needs_source ref) l <-> ref !! k = None /\ streamable l k.
Proof.
  rewrite list_elem_of_fmap. unfold streamable. split.
  - intros (job & -> & [[Hp [Hn Hi]%truthy_at_false] Hin]%list_elem_of_filter).
    split; [done |]. split; [by exists job | done].
  - intros (Hn & (job & Hin & <- & Hp) & Hi). exists job. split; [done |].
    apply list_elem_of_filter. split; [| done]. split; [done |].
    by apply truthy_at_false.
Qed.

Lemma connect_pending_sources apiConfig h (k : string) :
  (forall src, eventSources h !! k = Some src ->
     eventSources (fst (connect_pending apiConfig h)) !! k = Some src)
  /\ (eventSources h !! k = None -> streamable (jobs h) k ->
        eventSources (fst (connect_pending apiConfig h)) !! k
        = Some (status_url apiConfig k))
  /\ (eventSources h !! k = None -> ~ streamable (jobs h) k ->
        eventSources (fst (connect_pending apiConfig h)) !! k = None).
Proof.
  unfold connect_pending. cbn [fst eventSources]. rewrite !connect_fold_lookup.
  destruct (decide (k ∈ id <$> filter (needs_source (eventSources h)) (jobs h)))
    as [Hin | Hnot].
  - apply new_pending_ids in Hin as [Hn Hp]. split; [| split].
    + intros src Hsrc. congruence.
    + done.
    + done.
  - rewrite new_pending_ids in Hnot. split; [| split]; [done | | done].
    intros Hn Hp. exfalso. by apply Hnot.
Qed.

(** X13. The effect that opens streams gives a source to every pending job
    whose id is not the name of a member of [Object.prototype]: after it
    each such job has one, on the status URL of its id, and every pending
    job passes the test of the effect; a source that was open stays as it
    was, and an id without such a job gets none, so a pending job under the
    id [constructor] is left without a stream; a source is opened exactly
    for the ids that had none and have such a job; the jobs and the panel
    are untouched; and running the effect again opens nothing. *)
Theorem pending_jobs_get_streams (apiConfig : ApiConfig) (h : HookState) :
  let h' := fst (connect_pending apiConfig h) in
  let effs := snd (connect_pending apiConfig h) in
  (jobs h' = jobs h /\ isStatusOpen h' = isStatusOpen h
   /\ showDownloadSection h' = showDownloadSection h)
  /\ (forall job, job ∈ jobs h -> status (job_status job) = pending ->
        truthy_at (eventSources h') (id job) = true
        /\ (Js.inherited (id job) = false ->
              is_Some (eventSources h' !! id job)))
  /\ (forall (k : string) src, eventSources h !! k = Some src ->
        eventSources h' !! k = Some src)
  /\ (forall k : string, eventSources h !! k = None ->
        (pending_in (jobs h) k -> Js.inherited k = false ->
           eventSources h' !! k = Some (status_url apiConfig k))
        /\ (~ pending_in (jobs h) k \/ Js.inherited k = true ->
              eventSources h' !! k = None))
  /\ (forall (k : string) url,
        OpenSource k url ∈ effs <->
        url = status_url apiConfig k /\ eventSources h !! k = None
        /\ pending_in (jobs h) k /\ Js.inherited k = false)
  /\ connect_pending apiConfig h' = (h', [])
  /\ (Js.inherited "constructor" = true
      /\ connect_pending apiConfig (mkHook [constructor_job] true true ∅)
         = (mkHook [constructor_job] true true ∅, [])).
Proof.
  cbv zeta. split; [done |].
  assert (Hhas : forall job, job ∈ jobs h -> status (job_status job) = pending ->
            Js.inherited (id job) = false ->
            is_Some (eventSources (fst (connect_pending apiConfig h)) !! id job)).
  { intros job Hin Hp Hi.
    destruct (eventSources h !! id job) as [src|] eqn:Hsrc.
    - exists src. by apply connect_pending_sources.
    - exists (status_url apiConfig (id job)).
      apply connect_pending_sources; [done |]. split; [by exists job | done]. }
  assert (Htruthy : forall job, job ∈ jobs h -> status (job_status job) = pending ->
            truthy_at (eventSources (fst (connect_pending apiConfig h))) (id job)
            = true).
  { intros job Hin Hp. unfold truthy_at.
    destruct (Js.inherited (id job)) eqn:Hi; [apply orb_true_r |].
    rewrite orb_false_r. apply bool_decide_eq_true. by apply Hhas. }
  split; [| split; [| split; [| split; [| split]]]].
  - intros job Hin Hp. split; [by apply Htruthy | by apply Hhas].
  - intros k. apply connect_pending_sources.
  - intros k Hn. split.
    + intros Hp Hi. by apply connect_pending_sources.
    + intros Hno. apply connect_pending_sources; [done |].
      intros [Hp Hi]. destruct Hno as [Hno | Hno]; [done | congruence].
  - intros k url. unfold connect_pending. cbn [snd].
    rewrite list_elem_of_In, in_map_iff. split.
    + intros (job & [= <- <-] & Hin). apply list_elem_of_In in Hin.
      split; [done |].
      assert (Hk : id job ∈ id <$> filter (needs_source (eventSources h)) (jobs h)).
      { apply list_elem_of_fmap. by exists job. }
      apply new_pending_ids in Hk as (Hn & Hp & Hi). done.
    + intros (-> & Hn & (job & Hin & <- & Hp) & Hi). exists job. split; [done |].
      apply list_elem_of_In, list_elem_of_filter. split; [| done].
      split; [done |]. by apply truthy_at_false.
  - assert (Hnone : filter (needs_source
                              (eventSources (fst (connect_pending apiConfig h))))
                           (jobs h) = []).
    { apply filter_none. intros job Hin [Hp Hn].
      rewrite (Htruthy job Hin Hp) in Hn. discriminate. }
    unfold connect_pending at 1. cbn [jobs fst connect_pending] in *.
    rewrite Hnone. simpl. by destruct (connect_pending apiConfig h).
  - split; reflexivity.
Qed.

Lemma pending_jobs_get_streams_witness :
  OpenSource "job-1" "http://localhost:3000/api/report-status/job-1"
  ∈ snd (connect_pending sample_api
           (mkHook [sample_job; failed_job; finished_job] false false ∅)).
Proof.
  destruct (pending_jobs_get_streams sample_api
              (mkHook [sample_job; failed_job; finished_job] false false ∅))
    as (_ & _ & _ & _ & Hopen & _).
  apply Hopen. split; [reflexivity |]. split; [reflexivity |].
  split; [| reflexivity].
  exists sample_job. split; [by left | by split].
Defined.

(** X14. A job accepted by the server is appended to the list as pending
    and not downloaded, the jobs before it unchanged; [onJobAdded] is called
    with it; the panel is mounted and expanded; the sources that were open
    stay as they were; and, if no source was open under its id, the next run
    of the effect opens its status stream when the id is not the name of a
    member of [Object.prototype], and opens none for it when it is. *)
Theorem new_job_gets_stream (apiConfig : ApiConfig) (jobId nm : string)
    (clock : Clock) (h : HookState) :
  eventSources h !! jobId = None ->
  let newJob :=
    mkJob jobId (mkStatus pending None (Some (clock 0%nat))) nm (clock 1%nat)
          (Some false) in
  let h1 := fst (onSuccess jobId nm clock h) in
  let h2 := fst (connect_pending apiConfig h1) in
  jobs h2 = jobs h ++ [newJob]
  /\ snd (onSuccess jobId nm clock h) = [JobAdded newJob]
  /\ panel h2 = Some (DownloadStatus (jobs h ++ [newJob]) true)
  /\ (Js.inherited jobId = false ->
        eventSources h2 !! jobId = Some (status_url apiConfig jobId)
        /\ (OpenSource jobId (status_url apiConfig jobId)
            ∈ snd (connect_pending apiConfig h1)))
  /\ (Js.inherited jobId = true ->
        eventSources h2 !! jobId = None
        /\ forall url, OpenSource jobId url ∉ snd (connect_pending apiConfig h1))
  /\ (forall (k : string) src, eventSources h !! k = Some src ->
        eventSources h2 !! k = Some src).
Proof.
  intros Hnone. cbv zeta.
  set (newJob := mkJob jobId _ nm _ _).
  set (h1 := fst (onSuccess jobId nm clock h)).
  assert (Hp : pending_in (jobs h1) jobId).
  { exists newJob. split; [| done]. apply elem_of_app. right. by left. }
  destruct (connect_pending_sources apiConfig h1 jobId) as (_ & Hnew & Hno).
  split; [done |]. split; [done |]. split; [done |]. split; [| split].
  - intros Hi. split.
    + by apply Hnew.
    + unfold connect_pending. cbn [snd]. apply list_elem_of_In, in_map_iff.
      exists newJob. split; [done |]. apply list_elem_of_In, list_elem_of_filter.
      split; [| apply elem_of_app; right; by left].
      split; [done |]. by apply truthy_at_false.
  - intros Hi. split.
    + apply Hno; [done |]. intros [_ Hi']. congruence.
    + intros url Hin. unfold connect_pending in Hin. cbn [snd] in Hin.
      apply list_elem_of_In, in_map_iff in Hin as (job & [= Hid _] & Hin).
      apply list_elem_of_In, list_elem_of_filter in Hin
        as [[_ [_ Hi']%truthy_at_false] _].
      rewrite Hid in Hi'. congruence.
  - intros k src Hsrc. by apply (connect_pending_sources apiConfig h1 k).
Qed.

Lemma new_job_gets_stream_witness :
  eventSources
    (fst (connect_pending sample_api
            (fst (onSuccess "job-5" "Sales Report" (fun _ => 50%Z) sample_hook))))
    !! "job-5"
  = Some "http://localhost:3000/api/report-status/job-5"
  /\ eventSources
       (fst (connect_pending sample_api
               (fst (onSuccess "valueOf" "Sales Report" (fun _ => 50%Z)
                               sample_hook))))
       !! "valueOf" = None.
Proof.
  split.
  - destruct (new_job_gets_stream sample_api "job-5" "Sales Report"
                (fun _ => 50%Z) sample_hook) as (_ & _ & _ & H & _).
    + reflexivity.
    + apply H. reflexivity.
  - destruct (new_job_gets_stream sample_api "valueOf" "Sales Report"
                (fun _ => 50%Z) sample_hook) as (_ & _ & _ & _ & H & _).
    + reflexivity.
    + apply H. reflexivity.
Defined.

(** *** What a frame changes *)

Lemma update_job_updated rev apiConfig jobId data now j :
  id j = jobId ->
  updated_by jobId data j (fst (update_job rev apiConfig jobId data now j)).
Proof.
  intros Hid. unfold updated_by. rewrite decide_True by done.
  unfold update_job.
  destruct (bool_decide (status data = completed) && not_downloaded j); simpl.
  - repeat split; by eexists.
  - destruct (bool_decide (status data = failed)); simpl; repeat split; by eexists.
Qed.

Lemma map_jobs_updated rev apiConfig jobId data clock k prev :
  Forall2 (updated_by jobId data) prev
          (fst (map_jobs rev apiConfig jobId data clock k prev)).
Proof.
  revert k. induction prev as [|j rest IH]; intros k; [constructor |].
  simpl map_jobs. destruct (decide (id j = jobId)) as [Hid | Hid].
  - rewrite (bool_decide_eq_true_2 _ Hid). specialize (IH (S k)).
    pose proof (update_job_updated rev apiConfig jobId data (clock k) j Hid) as Hj.
    destruct (update_job rev apiConfig jobId data (clock k) j) as [j' eff].
    destruct (map_jobs rev apiConfig jobId data clock (S k) rest) as [rest' effs].
    by constructor.
  - rewrite (bool_decide_eq_false_2 _ Hid). specialize (IH k).
    destruct (map_jobs rev apiConfig jobId data clock k rest) as [rest' effs].
    constructor; [| done]. unfold updated_by. by rewrite decide_False.
Qed.

Lemma onmessage_jobs rev apiConfig jobId data clock prev :
  fst (onmessage rev apiConfig jobId data clock prev)
  = fst (map_jobs rev apiConfig jobId data clock 0 prev).
Proof.
  unfold onmessage. by destruct (map_jobs rev apiConfig jobId data clock 0 prev).
Qed.

Lemma onmessage_effects rev apiConfig jobId data clock prev :
  snd (onmessage rev apiConfig jobId data clock prev)
  = snd (map_jobs rev apiConfig jobId data clock 0 prev)
    ++ (if bool_decide (status data = completed)
           || bool_decide (status data = failed)
        then [CloseSource jobId] else []).
Proof.
  unfold onmessage. by destruct (map_jobs rev apiConfig jobId data clock 0 prev).
Qed.

Lemma map_jobs_no_close rev apiConfig jobId data clock k prev other :
  CloseSource other ∉ snd (map_jobs rev apiConfig jobId data clock k prev).
Proof.
  revert k. induction prev as [|j rest IH]; intros k; [apply not_elem_of_nil |].
  simpl map_jobs. destruct (bool_decide (id j = jobId)).
  - specialize (IH (S k)).
    destruct (map_jobs rev apiConfig jobId data clock (S k) rest) as [rest' effs].
    assert (Hj : CloseSource other
                 ∉ snd (update_job rev apiConfig jobId data (clock k) j)).
    { unfold update_job. destruct (_ && _); simpl.
      - intros H. repeat (apply elem_of_cons in H as [H | H]; [discriminate |]).
        by apply not_elem_of_nil in H.
      - destruct (bool_decide (status data = failed)); simpl; intros H.
        + repeat (apply elem_of_cons in H as [H | H]; [discriminate |]).
          by apply not_elem_of_nil in H.
        + by apply not_elem_of_nil in H. }
    destruct (update_job rev apiConfig jobId data (clock k) j) as [j' eff].
    simpl in *. intros [? | ?]%elem_of_app; done.
  - specialize (IH k).
    by destruct (map_jobs rev apiConfig jobId data clock k rest) as [rest' effs].
Qed.

(** X15. A frame on the stream of a job changes the jobs of that id and no
    other: each takes the status and the error of the frame and a new
    timestamp and keeps its id, name and creation time; the list keeps its
    length and order; the panel is untouched.  On a completed or failed
    frame the source of that job is closed and forgotten, the sources of
    the other jobs staying; on a pending frame no source is closed and the
    map of sources is unchanged. *)
Theorem stream_message_updates (apiConfig : ApiConfig) (jobId : string)
    (data : ReportStatus) (clock : Clock) (h : HookState) :
  let h' := fst (stream_message apiConfig jobId data clock h) in
  let effs := snd (stream_message apiConfig jobId data clock h) in
  Forall2 (updated_by jobId data) (jobs h) (jobs h')
  /\ length (jobs h') = length (jobs h)
  /\ isStatusOpen h' = isStatusOpen h
  /\ showDownloadSection h' = showDownloadSection h
  /\ (forall other : string, other <> jobId ->
        eventSources h' !! other = eventSources h !! other)
  /\ (status data <> pending ->
        eventSources h' !! jobId = None
        /\ StreamEffect (CloseSource jobId) ∈ effs)
  /\ (status data = pending ->
        eventSources h' = eventSources h
        /\ forall other, StreamEffect (CloseSource other) ∉ effs).
Proof.
  cbv zeta. unfold stream_message.
  pose proof (onmessage_jobs WithBaseUrl apiConfig jobId data clock (jobs h)) as Hj.
  pose proof (onmessage_effects WithBaseUrl apiConfig jobId data clock (jobs h)) as He.
  pose proof (map_jobs_updated WithBaseUrl apiConfig jobId data clock 0 (jobs h)) as Hu.
  pose proof (map_jobs_no_close WithBaseUrl apiConfig jobId data clock 0 (jobs h)) as Hc.
  destruct (onmessage WithBaseUrl apiConfig jobId data clock (jobs h)) as [jobs' effs].
  cbn [fst snd jobs isStatusOpen showDownloadSection eventSources] in *.
  subst jobs' effs.
  split; [done |]. split; [symmetry; by eapply Forall2_length |].
  split; [done |]. split; [done |]. split; [| split].
  - intros other Hne. destruct (_ || _); [by apply lookup_delete_ne | done].
  - intros Hs. assert (Ht : bool_decide (status data = completed)
                            || bool_decide (status data = failed) = true).
    { destruct (status data); [done | reflexivity | reflexivity]. }
    rewrite Ht. split; [apply lookup_delete_eq |].
    apply list_elem_of_In, in_map. apply list_elem_of_In.
    apply elem_of_app. right. by left.
  - intros Hs. rewrite Hs. simpl. split; [done |].
    intros other Hin. apply list_elem_of_In, in_map_iff in Hin as (e & [= ->] & Hin).
    apply list_elem_of_In in Hin. rewrite app_nil_r in Hin. by apply (Hc other).
Qed.

Lemma stream_message_updates_witness :
  eventSources
    (fst (stream_message sample_api "job-1" completed_frame (fun _ => 8000%Z)
            sample_hook)) !! "job-1" = None.
Proof.
  destruct (stream_message_updates sample_api "job-1" completed_frame
              (fun _ => 8000%Z) sample_hook) as (_ & _ & _ & _ & _ & H & _).
  apply H. discriminate.
Defined.

Lemma updated_kept jobId data j j' : updated_by jobId data j j' -> kept_by j j'.
Proof.
  unfold updated_by, kept_by. destruct (decide (id j = jobId)); [| by intros ->].
  intros (Hid & _ & _ & _ & Hd). split; [done |].
  unfold is_downloaded, not_downloaded in *.
  destruct (_ && _); rewrite Hd; [done |]. done.
Qed.

Lemma kept_by_trans j1 j2 j3 : kept_by j1 j2 -> kept_by j2 j3 -> kept_by j1 j3.
Proof.
  intros [H1 H1'] [H2 H2']. split; [congruence | auto].
Qed.

Lemma Forall2_kept_trans l1 l2 l3 :
  Forall2 kept_by l1 l2 -> Forall2 kept_by l2 l3 -> Forall2 kept_by l1 l3.
Proof.
  intros H12. revert l3. induction H12 as [|j1 j2 l1 l2 Hj H12 IH]; intros l3 H23.
  - by inversion H23.
  - inversion H23 as [|? j3 ? l3' Hj' H23']; subst.
    constructor; [by eapply kept_by_trans | by apply IH].
Qed.

Lemma deliver_kept rev apiConfig msgs jobs :
  Forall2 kept_by jobs (fst (deliver rev apiConfig msgs jobs)).
Proof.
  revert jobs. induction msgs as [|m msgs IH]; intros jobs.
  - simpl. apply Forall_Forall2_diag, Forall_forall. intros j _. by split.
  - simpl deliver.
    pose proof (onmessage_jobs rev apiConfig (msg_job m) (msg_data m) (msg_clock m)
                  jobs) as Hj.
    pose proof (map_jobs_updated rev apiConfig (msg_job m) (msg_data m)
                  (msg_clock m) 0 jobs) as Hu.
    destruct (onmessage rev apiConfig (msg_job m) (msg_data m) (msg_clock m) jobs)
      as [jobs1 effs].
    specialize (IH jobs1).
    destruct (deliver rev apiConfig msgs jobs1) as [jobs2 later].
    cbn [fst] in *. subst jobs1. eapply Forall2_kept_trans; [| exact IH].
    eapply Forall2_impl; [exact Hu |]. intros. by eapply updated_kept.
Qed.

(** X16. Whatever frames the streams deliver, in whatever order and for
    whatever jobs, the job list keeps its length and, place by place, the
    id, the name and the creation time of each job; and a job whose
    [downloaded] flag is set keeps it set. *)
Theorem streams_keep_identity (rev : Revision) (apiConfig : ApiConfig)
    (msgs : list Message) (jobs : list ReportJob) :
  let jobs' := fst (deliver rev apiConfig msgs jobs) in
  length jobs' = length jobs
  /\ identity <$> jobs' = identity <$> jobs
  /\ (forall i j, jobs !! i = Some j ->
        exists j', jobs' !! i = Some j' /\ identity j' = identity j
                   /\ (is_downloaded j = true -> is_downloaded j' = true)).
Proof.
  cbv zeta. pose proof (deliver_kept rev apiConfig msgs jobs) as H.
  split; [symmetry; by eapply Forall2_length |]. split.
  - induction H as [|j j' l l' [Hj _] _ IH]; [done |].
    by rewrite !fmap_cons, Hj, IH.
  - intros i j Hi. destruct (Forall2_lookup_l _ _ _ _ _ H Hi) as (j' & Hi' & [? ?]).
    by exists j'.
Qed.

Lemma streams_keep_identity_witness :
  exists j', fst (deliver WithBaseUrl sample_api repeated_frames
                    [sample_job; failed_job]) !! 1%nat = Some j'
             /\ identity j' = identity failed_job.
Proof.
  destruct (streams_keep_identity WithBaseUrl sample_api repeated_frames
              [sample_job; failed_job]) as (_ & _ & H).
  destruct (H 1%nat failed_job eq_refl) as (j' & Hj' & Hid & _).
  by exists j'.
Defined.

(** *** Persistence and reload *)

Lemma filter_on_load_completed expiry clock k l :
  (forall job, job ∈ l -> status (job_status job) = completed) ->
  filter_on_load expiry clock k l = [].
Proof.
  revert k. induction l as [|job l IH]; intros k Hall; [done |].
  simpl. rewrite bool_decide_eq_true_2 by (apply Hall; by left). simpl.
  apply IH. intros j Hj. apply Hall. by right.
Qed.

Lemma mount_persist storageConfig h localStorage clock :
  jobs (mount (persist storageConfig h localStorage) storageConfig clock)
  = filter_on_load (expiryTime_of storageConfig) clock 0 (jobs h).
Proof.
  unfold mount, persist, initial_jobs. cbn [jobs]. by rewrite lookup_insert_eq.
Qed.

(** X17. The job list written to the storage comes back on reload without
    its completed and its expired jobs: with [Date.now()] reading [now],
    the reloaded list is the written one restricted to the jobs that are
    not completed and younger than the expiry window, so a pending job
    within the window survives a reload.  Writing touches one key only.
    After a reload the panel is not mounted and no source is open, and the
    first run of the effect opens a stream for each pending job that came
    back, but for those whose id is the name of a member of
    [Object.prototype], which get none.  After Cancel All nothing comes
    back. *)
Theorem reload_restores_jobs (apiConfig : ApiConfig)
    (storageConfig : option StorageConfig) (h : HookState)
    (localStorage : gmap string (list ReportJob)) (now : Z) :
  let stored := persist storageConfig h localStorage in
  let h' := mount stored storageConfig (fun _ => now) in
  stored !! storageKey_of storageConfig = Some (jobs h)
  /\ (forall k : string, k <> storageKey_of storageConfig ->
        stored !! k = localStorage !! k)
  /\ jobs h' = filter (rehydrated (expiryTime_of storageConfig) now) (jobs h)
  /\ (forall job, job ∈ jobs h -> status (job_status job) = pending ->
        now - createdAt job < expiryTime_of storageConfig -> job ∈ jobs h')
  /\ panel h' = None /\ eventSources h' = ∅
  /\ (forall job, job ∈ jobs h' -> status (job_status job) = pending ->
        (Js.inherited (id job) = false ->
           eventSources (fst (connect_pending apiConfig h')) !! id job
           = Some (status_url apiConfig (id job)))
        /\ (Js.inherited (id job) = true ->
              eventSources (fst (connect_pending apiConfig h')) !! id job = None))
  /\ (forall clock,
        jobs (mount (persist storageConfig (fst (handleCancelAll h)) localStorage)
                    storageConfig clock) = []).
Proof.
  cbv zeta.
  assert (Hjobs : jobs (mount (persist storageConfig h localStorage) storageConfig
                          (fun _ => now))
                  = filter (rehydrated (expiryTime_of storageConfig) now) (jobs h)).
  { by rewrite mount_persist, filter_on_load_const. }
  split; [apply lookup_insert_eq |]. split; [| split; [| split; [| split;
    [| split; [| split]]]]]; try done.
  - intros k Hne. by apply lookup_insert_ne.
  - intros job Hin Hp Hage. rewrite Hjobs. apply list_elem_of_filter.
    split; [| done]. split; [| done]. rewrite Hp. discriminate.
  - intros job Hin Hp.
    set (h' := mount _ _ _) in *.
    destruct (connect_pending_sources apiConfig h' (id job)) as (_ & Hnew & Hno).
    split; intros Hi.
    + apply Hnew; [done |]. split; [by exists job | done].
    + apply Hno; [done |]. intros [_ Hi']. congruence.
  - intros clock. rewrite mount_persist. apply filter_on_load_completed.
    intros job Hin. unfold handleCancelAll in Hin. cbn [fst jobs] in Hin.
    by apply list_elem_of_filter in Hin as [? _].
Qed.

Lemma reload_restores_jobs_witness :
  (failed_job
   ∈ jobs (mount (persist None sample_hook ∅) None (fun _ => 1800500%Z)))
  /\ eventSources
       (fst (connect_pending sample_api
               (mount (persist None sample_hook ∅) None (fun _ => 500%Z))))
       !! "job-1"
     = Some "http://localhost:3000/api/report-status/job-1".
Proof.
  destruct (reload_restores_jobs sample_api None sample_hook ∅ 1800500)
    as (_ & _ & Heq & _).
  destruct (reload_restores_jobs sample_api None sample_hook ∅ 500)
    as (_ & _ & _ & _ & _ & _ & Hopen & _).
  split.
  - rewrite Heq. vm_compute. by left.
  - apply (Hopen sample_job); [vm_compute; by left | reflexivity | reflexivity].
Defined.

(** *** The panel *)

Lemma cancel_buttons jobs :
  length (filter (fun row => is_Some (cancel row)) (map render_row jobs))
  = length (filter (fun job => status (job_status job) = pending) jobs).
Proof.
  induction jobs as [|job jobs IH]; [done |].
  simpl map. rewrite !filter_cons.
  assert (Hrow : is_Some (cancel (render_row job))
                 <-> status (job_status job) = pending).
  { unfold render_row. cbn [cancel].
    case_bool_decide as Hp; split; intros H; try done;
      try (by eexists); destruct H; discriminate. }
  destruct (decide (status (job_status job) = pending)) as [Hp | Hp].
  - rewrite decide_True by by apply Hrow. simpl. by rewrite IH.
  - rewrite decide_False by by rewrite Hrow. done.
Qed.

Lemma pending_count_remove jobId jobs :
  (length (filter (fun job => status (job_status job) = pending)
                  (filter (fun job => id job <> jobId) jobs))
   + length (filter (fun job => id job = jobId
                                /\ status (job_status job) = pending) jobs)
   = length (filter (fun job => status (job_status job) = pending) jobs))%nat.
Proof.
  induction jobs as [|job jobs IH]; [done |].
  rewrite !filter_cons.
  destruct (decide (id job <> jobId)) as [Hne | Heq].
  - rewrite decide_False by (intros [? _]; done). rewrite filter_cons.
    destruct (decide (status (job_status job) = pending)); simpl; lia.
  - apply dec_stable in Heq.
    destruct (decide (status (job_status job) = pending)) as [Hp | Hp].
    + rewrite decide_True by done. simpl. lia.
    + rewrite decide_False by (intros [_ ?]; done). lia.
Qed.

(** X18. The panel shows one row for each job, in order and keyed by the
    job id; the count in its title is the number of pending jobs, which is
    also the number of rows with a Cancel button; a Cancel button removes
    the job of its own row, a row has the check mark exactly when its job
    is completed, so a failed job shows the progress bar and no button;
    Cancel All is offered exactly when some job is pending.  After
    [handleRemoveJob] the count has dropped by the number of pending jobs of
    that id, and after [handleCancelAll] the panel is gone. *)
Theorem panel_counts_pending (h : HookState) (isOpen : bool) (jobId : string) :
  let view := DownloadStatus (jobs h) isOpen in
  row_key <$> rows view = id <$> jobs h
  /\ badge view = length (filter (fun row => is_Some (cancel row)) (rows view))
  /\ (forall row, row ∈ rows view ->
        (forall k, cancel row = Some k ->
           k = row_key row /\ secondary row = pending)
        /\ (check_mark row = true <-> secondary row = completed))
  /\ (cancel_all view = true <->
        exists job, job ∈ jobs h /\ status (job_status job) = pending)
  /\ expanded view = isOpen
  /\ (badge (DownloadStatus (jobs (fst (handleRemoveJob jobId h))) isOpen)
      + length (filter (fun job => id job = jobId
                                   /\ status (job_status job) = pending) (jobs h))
      = badge view)%nat
  /\ panel (fst (handleCancelAll h)) = None.
Proof.
  cbv zeta. unfold DownloadStatus. cbn [rows badge cancel_all expanded].
  split; [| split; [| split; [| split; [| split; [| split]]]]]; try done.
  - induction (jobs h) as [|job l IH]; [done |]. simpl. f_equal. exact IH.
  - by rewrite cancel_buttons.
  - intros row Hin. apply list_elem_of_In, in_map_iff in Hin as (job & <- & _).
    unfold render_row. cbn [cancel row_key secondary check_mark]. split.
    + intros k. destruct (decide (status (job_status job) = pending)) as [Hp | Hp].
      * rewrite (bool_decide_eq_true_2 _ Hp). by intros [= <-].
      * by rewrite (bool_decide_eq_false_2 _ Hp).
    + apply bool_decide_eq_true.
  - rewrite bool_decide_eq_true. split.
    + intros Hpos.
      destruct (filter (fun job => status (job_status job) = pending) (jobs h))
        as [|job l] eqn:Hf; [simpl in Hpos; lia |].
      assert (Hin : job ∈ filter (fun job => status (job_status job) = pending)
                                 (jobs h)) by (rewrite Hf; by left).
      apply list_elem_of_filter in Hin as [Hp Hin]. by exists job.
    + intros (job & Hin & Hp).
      assert (Hin' : job ∈ filter (fun job => status (job_status job) = pending)
                                  (jobs h)) by (by apply list_elem_of_filter).
      destruct (filter _ (jobs h)); [by apply not_elem_of_nil in Hin' |].
      simpl. lia.
  - unfold handleRemoveJob. cbn [fst jobs]. apply pending_count_remove.
Qed.

Lemma panel_counts_pending_witness :
  cancel_all (DownloadStatus (jobs sample_hook) true) = true
  /\ badge (DownloadStatus (jobs sample_hook) true) = 1%nat.
Proof.
  destruct (panel_counts_pending sample_hook true "job-1")
    as (_ & Hbadge & _ & Hall & _).
  split.
  - apply Hall. exists sample_job. split; [by left | reflexivity].
  - rewrite Hbadge. reflexivity.
Defined.

(** *** Opening streams without the ref *)

Lemma streamable_cons job rest (k : string) :
  streamable (job :: rest) k
  <-> (id job = k /\ status (job_status job) = pending /\ Js.inherited k = false)
      \/ streamable rest k.
Proof.
  unfold streamable, pending_in. split.
  - intros [(j & [-> | Hin]%elem_of_cons & Hid & Hp) Hi]; [by left |].
    right. split; [by exists j | done].
  - intros [(Hid & Hp & Hi) | [(j & Hin & Hid & Hp) Hi]].
    + split; [| done]. exists job. split; [by left | done].
    + split; [| done]. exists j. split; [by right | done].
Qed.

Lemma connect_each_spec apiConfig (ref : gmap string Source) jobs :
  NoDup (opened_ids (snd (connect_each apiConfig ref jobs)))
  /\ (forall k : string,
        k ∈ opened_ids (snd (connect_each apiConfig ref jobs))
        <-> ref !! k = None /\ streamable jobs k)
  /\ (forall (k : string) src, ref !! k = Some src ->
        fst (connect_each apiConfig ref jobs) !! k = Some src)
  /\ (forall k : string, ref !! k = None -> streamable jobs k ->
        fst (connect_each apiConfig ref jobs) !! k
        = Some (statusEndpoint apiConfig k))
  /\ (forall k : string, ref !! k = None -> ~ streamable jobs k ->
        fst (connect_each apiConfig ref jobs) !! k = None)
  /\ (forall (k : string) url,
        OpenSource k url ∈ snd (connect_each apiConfig ref jobs) ->
        url = statusEndpoint apiConfig k).
Proof.
  revert ref. induction jobs as [|job rest IH]; intros ref.
  - simpl. split; [constructor |]. split; [| split; [| split; [| split]]].
    + intros k. split; [intros H; by apply not_elem_of_nil in H |].
      intros (_ & (j & H & _) & _). by apply not_elem_of_nil in H.
    + done.
    + intros k _ [(j & H & _) _]. by apply not_elem_of_nil in H.
    + done.
    + intros k url H. by apply not_elem_of_nil in H.
  - cbn [connect_each]. destruct (decide (needs_source ref job)) as [[Hp Hn] | Hno].
    + rewrite bool_decide_eq_true_2 by done.
      apply truthy_at_false in Hn as [Hn Hi].
      set (url := statusEndpoint apiConfig (id job)).
      destruct (IH (<[id job := url]> ref)) as (Hnd & Hin & Hold & Hnew & Hnone & Hurl).
      destruct (connect_each apiConfig (<[id job := url]> ref) rest) as [ref' effs].
      cbn [fst snd] in *. cbn [opened_ids omap list_omap].
      change (omap _ effs) with (opened_ids effs).
      assert (Hfresh : forall k : string, k <> id job ->
                <[id job := url]> ref !! k = ref !! k).
      { intros k Hk. by apply lookup_insert_ne. }
      split; [| split; [| split; [| split; [| split]]]].
      * apply NoDup_cons. split; [| done].
        intros [Hbad _]%Hin. by rewrite lookup_insert_eq in Hbad.
      * intros k. rewrite elem_of_cons, Hin, streamable_cons. split.
        -- intros [-> | [Hk Hpk]]; [by auto |].
           assert (k <> id job) by (intros ->; by rewrite lookup_insert_eq in Hk).
           rewrite Hfresh in Hk by done. auto.
        -- intros [Hk [[Hid _] | Hpk]]; [by left |].
           destruct (decide (k = id job)) as [-> | Hne]; [by left |].
           right. by rewrite Hfresh.
      * intros k src Hsrc. apply Hold.
        rewrite Hfresh; [done |]. intros ->. congruence.
      * intros k Hk Hpk. destruct (decide (k = id job)) as [-> | Hne].
        -- apply Hold. apply lookup_insert_eq.
        -- apply Hnew; [by rewrite Hfresh |].
           apply streamable_cons in Hpk as [[Hid _] | Hpk]; [congruence | done].
      * intros k Hk Hpk. rewrite streamable_cons in Hpk.
        assert (k <> id job) by (intros ->; apply Hpk; by left).
        apply Hnone; [by rewrite Hfresh |]. tauto.
      * intros k u [[= -> ->] | Hu]%elem_of_cons; [done | by apply Hurl].
    + rewrite bool_decide_eq_false_2 by done.
      destruct (IH ref) as (Hnd & Hin & Hold & Hnew & Hnone & Hurl).
      destruct (connect_each apiConfig ref rest) as [ref' effs]. cbn [fst snd] in *.
      assert (Hsame : forall k : string, ref !! k = None ->
                (streamable (job :: rest) k <-> streamable rest k)).
      { intros k Hk. rewrite streamable_cons. split; [| tauto].
        intros [(Hid & Hp & Hi) | ?]; [| done]. exfalso. apply Hno.
        split; [done |]. apply truthy_at_false. by rewrite Hid. }
      split; [done |]. split; [| split; [| split; [| split]]].
      * intros k. rewrite Hin. split; intros [Hk Hpk]; (split; [done |]);
          by apply (Hsame k Hk).
      * done.
      * intros k Hk Hpk. apply Hnew; [done |]. by apply (Hsame k Hk).
      * intros k Hk Hpk. apply Hnone; [done |]. by rewrite <- (Hsame k Hk).
      * done.
Qed.

(** X19. In the revision without the ref, one run of the effect opens one
    stream for each id that has a pending job and is not the name of a
    member of [Object.prototype], and one only even when several jobs share
    the id; each is opened on the status endpoint of its id; the object of
    the run holds exactly those ids; and a pending job whose id is such a
    name gets no stream. *)
Theorem connect_each_once (apiConfig : ApiConfig) (jobs : list ReportJob) :
  let ref := fst (connect_each apiConfig ∅ jobs) in
  let effs := snd (connect_each apiConfig ∅ jobs) in
  NoDup (opened_ids effs)
  /\ (forall k : string,
        k ∈ opened_ids effs <-> pending_in jobs k /\ Js.inherited k = false)
  /\ (forall k : string,
        is_Some (ref !! k) <-> pending_in jobs k /\ Js.inherited k = false)
  /\ (forall (k : string) url, OpenSource k url ∈ effs ->
        url = statusEndpoint apiConfig k
        /\ ref !! k = Some (statusEndpoint apiConfig k))
  /\ (forall job, job ∈ jobs -> Js.inherited (id job) = true ->
        ref !! id job = None
        /\ forall url, OpenSource (id job) url ∉ effs).
Proof.
  cbv zeta.
  destruct (connect_each_spec apiConfig ∅ jobs)
    as (Hnd & Hin & _ & Hnew & Hnone & Hurl).
  assert (Hopened : forall (k : string) url,
            OpenSource k url ∈ snd (connect_each apiConfig ∅ jobs) ->
            k ∈ opened_ids (snd (connect_each apiConfig ∅ jobs))).
  { intros k url Hk. unfold opened_ids. apply list_elem_of_omap.
    by exists (OpenSource k url). }
  split; [done |]. split; [| split; [| split]].
  - intros k. rewrite Hin, lookup_empty. unfold streamable. tauto.
  - intros k. split.
    + intros [src Hsrc].
      destruct (decide (k ∈ opened_ids (snd (connect_each apiConfig ∅ jobs))))
        as [Hk | Hk]; [by apply Hin in Hk as [_ ?] |].
      rewrite Hnone in Hsrc; [done | apply lookup_empty |].
      intros Hp. apply Hk, Hin. split; [apply lookup_empty | done].
    + intros Hp. rewrite Hnew; [by eexists | apply lookup_empty | done].
  - intros k url Hk. split; [by eapply Hurl |].
    apply Hnew; [apply lookup_empty |]. by apply (Hopened k url), Hin in Hk as [_ ?].
  - intros job Hjob Hi. split.
    + apply Hnone; [apply lookup_empty |]. intros [_ Hi']. congruence.
    + intros url Hk. apply (Hopened _ url), Hin in Hk as [_ [_ Hi']]. congruence.
Qed.

Lemma connect_each_once_witness :
  fst (connect_each sample_api ∅ [sample_job; sample_job; failed_job]) !! "job-1"
  = Some "/report-status/job-1"
  /\ NoDup (opened_ids
              (snd (connect_each sample_api ∅ [sample_job; sample_job; failed_job])))
  /\ fst (connect_each sample_api ∅ [constructor_job]) !! "constructor" = None.
Proof.
  destruct (connect_each_once sample_api [sample_job; sample_job; failed_job])
    as (Hnd & _ & _ & Hopen & _).
  destruct (connect_each_once sample_api [constructor_job])
    as (_ & _ & _ & _ & Hnone).
  split; [| split; [exact Hnd |]].
  - apply (Hopen "job-1" "/report-status/job-1"). vm_compute. by left.
  - apply (Hnone constructor_job); [by left | reflexivity].
Defined.

End HookProofs.
